(** * Camera projection and PID control of the pylot example pipeline

    A shallow embedding of

    - [examples/pylot/simulation/utils.py]: projection of a 3-D bounding
      box into the image and the derivation of a 2-D box
      ([map_ground_bounding_box_to_2D], [get_bounding_box_from_corners],
      [get_bounding_box_sampling_points], [get_2d_bbox_from_3d_box],
      [have_same_depth], [inside_image], [select_max_bbox]);
    - [examples/pylot/control/pid_control_operator.py]: the operator
      turning a target speed and a waypoint into throttle, brake and
      steering ([PIDControlOperator]).

    Numbers.  The projection code only adds, multiplies, divides and
    compares, so its Python floats are modelled by exact rationals [Q]
    and everything evaluates.  The control code calls [cos], [sin],
    [acos] and [sqrt] and divides numpy arrays, where a zero divisor
    does not raise but produces [inf] or [nan]; its floats are modelled
    by the reals extended with the two infinities and NaN ([npfloat]).
    In both halves rounding, overflow and underflow are left out.

    Rounding decides one thing these models cannot show: the dot
    product of the two normalized vectors in [_get_steering] can round
    to a value above 1, and [math.acos] then raises.  [Binary64] repeats
    [_get_steering] on IEEE 754 binary64 numbers for that purpose. *)

From Stdlib Require Import ZArith QArith Qabs List Bool Lia Lqa.
From Stdlib Require Import Reals Lra RNsatz.
From Stdlib Require String Ascii.
From Stdlib Require Floats.
Import ListNotations.

(** ** Exceptions and results *)

Inductive exn : Set :=
| LinAlgError      (* numpy.linalg.inv on a singular matrix *)
| IndexError       (* subscript out of range *)
| AssertionError   (* a failed assert *)
| ValueError.      (* math domain error *)

Inductive result (A : Type) : Type :=
| Ok (a : A)
| Raise (e : exn).
Arguments Ok {A} a.
Arguments Raise {A} e.

Definition rbind {A B} (r : result A) (k : A -> result B) : result B :=
  match r with
  | Ok a => k a
  | Raise e => Raise e
  end.

Module Projection.

Local Open Scope Q_scope.

(** ** Comparisons of Python numbers *)

Definition Qltb (x y : Q) : bool := negb (Qle_bool y x).
Definition Qgtb (x y : Q) : bool := Qltb y x.
Definition Qgeb (x y : Q) : bool := Qle_bool y x.

(** [int(x)] truncates towards zero. *)
Definition py_int (x : Q) : Z := Z.quot (Qnum x) (Zpos (Qden x)).

(** ** Dense matrices (numpy arrays of rank 2) as lists of rows *)

Definition mat := list (list Q).

Definition entry (m : mat) (i j : nat) : Q := nth j (nth i m []) 0.

Definition Qsum (l : list Q) : Q := fold_right Qplus 0 l.

Definition col (m : mat) (j : nat) : list Q := map (fun r => nth j r 0) m.

Definition ncols (m : mat) : nat :=
  match m with
  | [] => O
  | r :: _ => length r
  end.

Definition transpose (m : mat) : mat :=
  map (col m) (seq 0 (ncols m)).

Definition vdot (u v : list Q) : Q :=
  Qsum (map (fun p => fst p * snd p) (combine u v)).

(** [np.dot a b] and [a * b] on [np.matrix]. *)
Definition dot (a b : mat) : mat :=
  map (fun r => map (fun c => vdot r c) (transpose b)) a.

Fixpoint remove_nth {A} (n : nat) (l : list A) : list A :=
  match l, n with
  | [], _ => []
  | _ :: t, O => t
  | h :: t, S k => h :: remove_nth k t
  end.

Definition minor (i j : nat) (m : mat) : mat :=
  map (remove_nth j) (remove_nth i m).

Definition sgn (k : nat) : Q := if Nat.even k then 1 else -(1).

(** Determinant by expansion along the first row; [n] is the size. *)
Fixpoint det_n (n : nat) (m : mat) : Q :=
  match n with
  | O => 1
  | S k =>
      Qsum (map (fun j => sgn j * entry m 0 j * det_n k (minor 0 j m))
                (seq 0 (S k)))
  end.

Definition det (m : mat) : Q := det_n (length m) m.

(** [numpy.linalg.inv]: the inverse, [LinAlgError] on a singular matrix. *)
Definition inv (m : mat) : result mat :=
  let n := length m in
  let d := det m in
  if Qeq_bool d 0 then Raise LinAlgError
  else Ok (map (fun i =>
             map (fun j => sgn (i + j) * det_n (pred n) (minor j i m) / d)
                 (seq 0 n))
             (seq 0 n)).

(** ** Data model *)

Record Extent : Type := { ext_x : Q; ext_y : Q; ext_z : Q }.

(** Only the matrix of a [Transform] is read by the projection. *)
Record Transform : Type := { matrix : mat }.

Record BoundingBox : Type := { transform : Transform; extent : Extent }.

(** [Transform.__mul__] *)
Definition Transform_mul (a b : Transform) : Transform :=
  {| matrix := dot (matrix a) (matrix b) |}.

(** [Transform.transform_points] *)
Definition transform_points (t : Transform) (points : mat) : mat :=
  let points := transpose points in
  let points := points ++ [repeat 1 (ncols points)] in
  let points := dot (matrix t) points in
  transpose (firstn 3 points).

(** A projected corner [(x, y, z)]. *)
Definition corner : Type := Q * Q * Q.
Definition cx (c : corner) : Q := fst (fst c).
Definition cy (c : corner) : Q := snd (fst c).
Definition cz (c : corner) : Q := snd c.

(** ** Reads of the depth buffer

    [get_2d_bbox_from_3d_box] subscripts the depth array.  A computation
    yields the subscripts [(row, column)] it used, in order, and its
    outcome. *)

Definition M (A : Type) : Type := (list (Z * Z) * result A)%type.

Definition ret {A} (a : A) : M A := ([], Ok a).

Definition bind {A B} (m : M A) (k : A -> M B) : M B :=
  match m with
  | (log, Ok a) => let (log', r) := k a in (log ++ log', r)
  | (log, Raise e) => (log, Raise e)
  end.

Definition lift {A} (r : result A) : M A := ([], r).

Definition tell_read (y x : Z) : M unit := ([(y, x)], Ok tt).

Notation "x <- c1 ;; c2" := (bind c1 (fun x => c2))
  (at level 61, c1 at next level, right associativity).

Fixpoint mapM {A B} (f : A -> M B) (l : list A) : M (list B) :=
  match l with
  | [] => ret []
  | a :: t => b <- f a ;; bs <- mapM f t ;; ret (b :: bs)
  end.

(** Python's [l[i]]: a negative subscript counts from the end. *)
Definition py_getitem {A} (l : list A) (i : Z) : result A :=
  let n := Z.of_nat (length l) in
  let j := if (i <? 0)%Z then (i + n)%Z else i in
  if ((0 <=? j)%Z && (j <? n)%Z)%bool then
    match nth_error l (Z.to_nat j) with
    | Some a => Ok a
    | None => Raise IndexError
    end
  else Raise IndexError.

(** ** [map_ground_bounding_box_to_2D] *)

(** The 8 bounding box vertices relative to (0,0,0). *)
Definition bbox_vertices (e : Extent) : mat :=
  [ [  ext_x e;   ext_y e;   ext_z e];
    [  ext_x e; - ext_y e;   ext_z e];
    [  ext_x e;   ext_y e; - ext_z e];
    [  ext_x e; - ext_y e; - ext_z e];
    [- ext_x e;   ext_y e;   ext_z e];
    [- ext_x e; - ext_y e;   ext_z e];
    [- ext_x e;   ext_y e; - ext_z e];
    [- ext_x e; - ext_y e; - ext_z e] ].

(** The body of the loop up to [loc_2d].  numpy divides by a zero
    [pos2d[2]] without raising; the quotient is then never looked at,
    because the vertex fails [loc_2d.z > 0]. *)
Definition project_vertex (image_width image_height : Z)
    (extrinsic_mat : Transform) (rgb_intrinsic : mat) (vertex : list Q)
  : result corner :=
  let pos_vector := [[nth 0 vertex 0]; [nth 1 vertex 0]; [nth 2 vertex 0]; [1]] in
  rbind (inv (matrix extrinsic_mat)) (fun inv_mat =>
  let transformed_3d_pos := dot inv_mat pos_vector in
  let pos2d := dot rgb_intrinsic (firstn 3 transformed_3d_pos) in
  Ok (inject_Z image_width - entry pos2d 0 0 / entry pos2d 2 0,
      inject_Z image_height - entry pos2d 1 0 / entry pos2d 2 0,
      entry pos2d 2 0)).

Fixpoint map_ground_loop (image_width image_height : Z)
    (extrinsic_mat : Transform) (rgb_intrinsic : mat)
    (bbox : mat) (coords : list corner) : result (list corner) :=
  match bbox with
  | [] => Ok coords
  | vertex :: bbox' =>
      rbind (project_vertex image_width image_height extrinsic_mat
                            rgb_intrinsic vertex) (fun loc_2d =>
      let coords :=
        if Qgtb (cz loc_2d) 0 then
          if (Qgeb (cx loc_2d) 0 || Qgeb (cy loc_2d) 0)
             && (Qltb (cx loc_2d) (inject_Z image_width)
                 || Qltb (cy loc_2d) (inject_Z image_height))
          then coords ++ [loc_2d]
          else coords
        else coords in
      map_ground_loop image_width image_height extrinsic_mat rgb_intrinsic
                      bbox' coords)
  end.

Definition world_vertices (obj_transform : Transform)
    (bounding_box : BoundingBox) : mat :=
  let bbox := bbox_vertices (extent bounding_box) in
  let bbox := transform_points (transform bounding_box) bbox in
  transform_points obj_transform bbox.

Definition map_ground_bounding_box_to_2D
    (vehicle_transform obj_transform : Transform)
    (bounding_box : BoundingBox) (rgb_transform : Transform)
    (rgb_intrinsic : mat) (rgb_img_size : Z * Z) : result (list corner) :=
  let '(image_width, image_height) := rgb_img_size in
  let extrinsic_mat := Transform_mul vehicle_transform rgb_transform in
  let bbox := world_vertices obj_transform bounding_box in
  map_ground_loop image_width image_height extrinsic_mat rgb_intrinsic
                  bbox [].

(** ** [get_bounding_box_from_corners] *)

(** [itertools.combinations(l, r=2)] *)
Fixpoint combinations2 {A} (l : list A) : list (A * A) :=
  match l with
  | [] => []
  | a :: t => map (pair a) t ++ combinations2 t
  end.

Definition too_close (a b : corner) : bool :=
  Qle_bool (Qabs (cx a - cx b)) (8 # 10)
  || Qle_bool (Qabs (cy a - cy b)) (8 # 10).

Definition sq_distance (a b : corner) : Q :=
  (cx b - cx a) ^ 2 + (cy b - cy a) ^ 2.

(** One iteration, on the loop state [(max_distance, opp_ends)]. *)
Definition corners_step (st : Q * option (corner * corner))
    (ab : corner * corner) : Q * option (corner * corner) :=
  let '(max_distance, opp_ends) := st in
  let '(a, b) := ab in
  if too_close a b then st
  else
    let distance := sq_distance a b in
    if Qgtb distance max_distance then
      (distance,
       if Qltb (cx a) (cx b) && Qltb (cy a) (cy b)
       then Some (a, b) else Some (b, a))
    else st.

Definition get_bounding_box_from_corners (corners : list corner)
  : option (corner * corner) :=
  snd (fold_left corners_step (combinations2 corners) (0, None)).

(** ** Sampling points, image test, depth test, box *)

Definition get_bounding_box_sampling_points (ends : corner * corner)
  : corner * list corner :=
  let '(a, b) := ends in
  let middle_point : corner :=
    ((cx a + cx b) / 2, (cy a + cy b) / 2, cz b) in
  let sampling_points : list corner :=
    [ middle_point;
      (cx middle_point + 2, cy middle_point, cz middle_point);
      (cx middle_point + 1, cy middle_point + 1, cz middle_point);
      (cx middle_point + 1, cy middle_point - 1, cz middle_point);
      (cx middle_point - 2, cy middle_point, cz middle_point);
      (cx middle_point - 1, cy middle_point + 1, cz middle_point);
      (cx middle_point - 1, cy middle_point - 1, cz middle_point) ] in
  (middle_point, sampling_points).

Definition inside_image (x y : Q) (img_width img_height : Z) : bool :=
  Qgeb x 0 && Qgeb y 0
  && Qltb x (inject_Z img_width) && Qltb y (inject_Z img_height).

Definition have_same_depth (x y z : Q) (depth_array : mat) (threshold : Q)
  : M bool :=
  let x := py_int x in
  let y := py_int y in
  _ <- tell_read y x ;;
  row <- lift (py_getitem depth_array y) ;;
  d <- lift (py_getitem row x) ;;
  ret (Qltb (Qabs (d * 1000 - z)) threshold).

Definition box : Type := (Z * Z * Z * Z)%type.

Definition select_max_bbox (ends : corner * corner) : box :=
  let '(xmin, ymin) := (py_int (cx (fst ends)), py_int (cy (fst ends))) in
  let '(xmax, ymax) := (py_int (cx (fst ends)), py_int (cy (fst ends))) in
  let corner := (py_int (cx (snd ends)), py_int (cy (snd ends))) in
  let xmin := Z.min xmin (fst corner) in
  let ymin := Z.min ymin (snd corner) in
  let xmax := Z.max xmax (fst corner) in
  let ymax := Z.max ymax (snd corner) in
  (xmin, xmax, ymin, ymax).

(** ** [get_2d_bbox_from_3d_box] *)

(** The filter on small boxes; the source writes it out in both
    branches. *)
Definition big_enough (rgb_img_size : Z * Z) (b : box) : bool :=
  let '(xmin, xmax, ymin, ymax) := b in
  let width := (xmax - xmin)%Z in
  let height := (ymax - ymin)%Z in
  Qgtb (inject_Z width) (inject_Z (fst rgb_img_size) * (1 # 100))
  && Qgtb (inject_Z height) (inject_Z (snd rgb_img_size) * (2 # 100))
  && Qgtb (inject_Z (width * height))
          (inject_Z (fst rgb_img_size * snd rgb_img_size) * (4 # 10000)).

Definition count_true (l : list bool) : nat := count_occ bool_dec l true.

Definition enough_same_depth (same_depth_points : list bool) : bool :=
  (0 <? length same_depth_points)%nat
  && Qgeb (inject_Z (Z.of_nat (count_true same_depth_points)))
          ((4 # 10) * inject_Z (Z.of_nat (length same_depth_points))).

Definition get_2d_bbox_from_3d_box
    (depth_array : mat) (vehicle_transform obj_transform : Transform)
    (bounding_box : BoundingBox) (rgb_transform : Transform)
    (rgb_intrinsic : mat) (rgb_img_size : Z * Z)
    (middle_depth_threshold neighbor_threshold : Q) : M (option box) :=
  corners <- lift (map_ground_bounding_box_to_2D
                     vehicle_transform obj_transform bounding_box
                     rgb_transform rgb_intrinsic rgb_img_size) ;;
  if (length corners =? 8)%nat then
    match get_bounding_box_from_corners corners with
    | Some ends =>
        let '(middle_point, points) := get_bounding_box_sampling_points ends in
        gate <- (if inside_image (cx middle_point) (cy middle_point)
                                 (fst rgb_img_size) (snd rgb_img_size)
                 then have_same_depth (cx middle_point) (cy middle_point)
                                      (cz middle_point) depth_array
                                      middle_depth_threshold
                 else ret false) ;;
        if gate then
          if big_enough rgb_img_size (select_max_bbox ends)
          then ret (Some (select_max_bbox ends))
          else ret None
        else
          let points_inside_image :=
            filter (fun p => inside_image (cx p) (cy p)
                                          (fst rgb_img_size) (snd rgb_img_size))
                   points in
          same_depth_points <-
            mapM (fun p => have_same_depth (cx p) (cy p) (cz p) depth_array
                                           neighbor_threshold)
                 points_inside_image ;;
          if enough_same_depth same_depth_points then
            if big_enough rgb_img_size (select_max_bbox ends)
            then ret (Some (select_max_bbox ends))
            else ret None
          else ret None
    | None => ret None
    end
  else ret None.

(** ** Scenes to run the projection on *)

Definition identity4 : mat :=
  [[1; 0; 0; 0]; [0; 1; 0; 0]; [0; 0; 1; 0]; [0; 0; 0; 1]].

Definition translation (x y z : Q) : Transform :=
  {| matrix := [[1; 0; 0; x]; [0; 1; 0; y]; [0; 0; 1; z]; [0; 0; 0; 1]] |}.

Definition origin : Transform := {| matrix := identity4 |}.

(** A camera at the origin with focal length 99 and principal point
    (50, 50), for a 100 x 100 image. *)
Definition camera99 : mat := [[99; 0; 50]; [0; 99; 50]; [0; 0; 1]].

Definition unit_cube_at (x y z : Q) : BoundingBox :=
  {| transform := translation x y z;
     extent := {| ext_x := 1; ext_y := 1; ext_z := 1 |} |}.

(** A 100 x 100 depth buffer that holds [dflt] except at the listed
    [(row, column)] pixels. *)
Definition depth_buffer (dflt : Q) (special : list (nat * nat * Q)) : mat :=
  map (fun y =>
         map (fun x =>
                match find (fun e => (fst (fst e) =? y)%nat
                                     && (snd (fst e) =? x)%nat) special with
                | Some e => snd e
                | None => dflt
                end)
             (seq 0 100))
      (seq 0 100).

(** A cube whose corners all project left of and below the image. *)
Definition offscreen_cube : BoundingBox := unit_cube_at 8 (-8) 10.

(** The same cube behind the camera. *)
Definition cube_behind : BoundingBox := unit_cube_at 0 0 (-10).

(** Eight corners whose two farthest lie on the falling diagonal. *)
Definition falling_corners : list corner :=
  [ (0, 10, 1); (10, 0, 1); (5, 5, 1); (5, 5, 1);
    (5, 5, 1); (5, 5, 1); (5, 5, 1); (5, 5, 1) ].

(** A depth buffer for the cube at depth 10 seen by [camera99]: the
    middle pixel is 0.5 off the depth 9 of the chosen corner, two of its
    six neighbours match it, every other pixel is far away. *)
Definition split_vote_depth : mat :=
  depth_buffer 1 [ (50, 50, 95 # 10000); (50, 52, 9 # 1000);
                   (51, 51, 9 # 1000) ]%nat.

(** ** Notions used in the statements *)

(** Visibility as the specification words it: in front of the camera
    and x within [0, width) or y within [0, height). *)
Definition claimed_visible (width height : Z) (p : corner) : Prop :=
  0 < cz p /\
  ((0 <= cx p /\ cx p < inject_Z width) \/
   (0 <= cy p /\ cy p < inject_Z height)).

(** Visibility as the loop tests it. *)
Definition visible (width height : Z) (p : corner) : Prop :=
  0 < cz p /\
  (0 <= cx p \/ 0 <= cy p) /\
  (cx p < inject_Z width \/ cy p < inject_Z height).

(** The test of the loop, as one boolean. *)
Definition visibleb (width height : Z) (p : corner) : bool :=
  Qgtb (cz p) 0
  && ((Qgeb (cx p) 0 || Qgeb (cy p) 0)
      && (Qltb (cx p) (inject_Z width) || Qltb (cy p) (inject_Z height))).

(** The order in which the loop stores a chosen pair. *)
Definition orient (a b : corner) : corner * corner :=
  if Qltb (cx a) (cx b) && Qltb (cy a) (cy b) then (a, b) else (b, a).

(** The pair [(a, b)] is the first of [pairs] with the largest squared
    distance among those that are not too close. *)
Definition first_farthest (pairs : list (corner * corner))
    (a b : corner) : Prop :=
  exists before after,
    pairs = before ++ (a, b) :: after /\
    too_close a b = false /\
    (forall c d, In (c, d) before -> too_close c d = false ->
                 sq_distance c d < sq_distance a b) /\
    (forall c d, In (c, d) after -> too_close c d = false ->
                 sq_distance c d <= sq_distance a b).

(** What the loop state records after the pairs [seen]. *)
Definition loop_inv (seen : list (corner * corner))
    (st : Q * option (corner * corner)) : Prop :=
  match snd st with
  | None =>
      fst st = 0 /\ forall a b, In (a, b) seen -> too_close a b = true
  | Some pq =>
      exists a b,
        first_farthest seen a b /\
        fst st = sq_distance a b /\ pq = orient a b
  end.

(** The six sample points around a middle point: two pixels to either
    side and the four diagonal neighbours. *)
Definition offset_points (middle_point : corner) : list corner :=
  [ (cx middle_point + 2, cy middle_point, cz middle_point);
    (cx middle_point + 1, cy middle_point + 1, cz middle_point);
    (cx middle_point + 1, cy middle_point - 1, cz middle_point);
    (cx middle_point - 2, cy middle_point, cz middle_point);
    (cx middle_point - 1, cy middle_point + 1, cz middle_point);
    (cx middle_point - 1, cy middle_point - 1, cz middle_point) ].

(** A depth array of [height] rows and [width] columns. *)
Definition has_shape (depth_array : mat) (width height : Z) : Prop :=
  Z.of_nat (length depth_array) = height /\
  Forall (fun row => Z.of_nat (length row) = width) depth_array.

(** The depth test at a pixel known to lie in the array. *)
Definition same_depth (depth_array : mat) (threshold : Q) (p : corner)
  : bool :=
  Qltb (Qabs (entry depth_array (Z.to_nat (py_int (cy p)))
                                (Z.to_nat (py_int (cx p))) * 1000 - cz p))
       threshold.

(** The gate on the middle point. *)
Definition midpoint_gate (depth_array : mat) (rgb_img_size : Z * Z)
    (middle_depth_threshold : Q) (middle_point : corner) : bool :=
  inside_image (cx middle_point) (cy middle_point)
               (fst rgb_img_size) (snd rgb_img_size)
  && same_depth depth_array middle_depth_threshold middle_point.

(** The vote of a list of sample points: those inside the image are not
    empty and at least 0.4 of them have the depth of the buffer. *)
Definition sample_vote (depth_array : mat) (rgb_img_size : Z * Z)
    (neighbor_threshold : Q) (samples : list corner) : bool :=
  let inside :=
    filter (fun p => inside_image (cx p) (cy p)
                                  (fst rgb_img_size) (snd rgb_img_size))
           samples in
  enough_same_depth (map (same_depth depth_array neighbor_threshold) inside).

(** ** [map_ground_3D_transform_to_2D] *)

Definition map_ground_3D_transform_to_2D (location : Q * Q * Q)
    (vehicle_transform rgb_transform : Transform) (rgb_intrinsic : mat)
    (rgb_img_size : Z * Z) : result (option corner) :=
  let extrinsic_mat := Transform_mul vehicle_transform rgb_transform in
  let pos_vector := [[cx location]; [cy location]; [cz location]; [1]] in
  rbind (inv (matrix extrinsic_mat)) (fun inv_mat =>
  let transformed_3d_pos := dot inv_mat pos_vector in
  let pos2d := dot rgb_intrinsic (firstn 3 transformed_3d_pos) in
  let '(img_width, img_height) := rgb_img_size in
  let loc_2d : corner :=
    (inject_Z img_width - entry pos2d 0 0 / entry pos2d 2 0,
     inject_Z img_height - entry pos2d 1 0 / entry pos2d 2 0,
     entry pos2d 2 0) in
  if Qgtb (cz loc_2d) 0 && Qgeb (cx loc_2d) 0
     && Qltb (cx loc_2d) (inject_Z img_width)
     && Qgeb (cy loc_2d) 0 && Qltb (cy loc_2d) (inject_Z img_height)
  then Ok (Some loc_2d)
  else Ok None).

(** ** More notions used in the statements *)

(** One point through a matrix: its first three rows applied to
    [x; y; z; 1]. *)
Definition transform_point (m : mat) (p : list Q) : list Q :=
  map (fun r => vdot r [nth 0 p 0; nth 1 p 0; nth 2 p 0; 1]) (firstn 3 m).

(** A 4 x 4 matrix with last row 0 0 0 1, as every [Transform] built
    from a position and angles has, and every product of such. *)
Definition affine (m : mat) : Prop :=
  exists a b c d e f g h i j k l,
    m = [[a; b; c; d]; [e; f; g; h]; [i; j; k; l]; [0; 0; 0; 1]].

(** Equality of point lists coordinate by coordinate. *)
Definition same_points (ps qs : mat) : Prop := Forall2 (Forall2 Qeq) ps qs.

(** A rotation by a quarter turn about z followed by a shift, and a
    scaling followed by a shift. *)
Definition quarter_turn : Transform :=
  {| matrix := [[0; -(1); 0; 5]; [1; 0; 0; 0]; [0; 0; 1; 2]; [0; 0; 0; 1]] |}.

Definition scaling : Transform :=
  {| matrix := [[2; 0; 0; 1]; [0; 3; 0; 1]; [0; 0; 4; 1]; [0; 0; 0; 1]] |}.

End Projection.

Module Control.

Local Open Scope R_scope.

(** ** Floats of the control code

    A finite value, an infinity or NaN.  Finite arithmetic is exact; the
    special values follow IEEE 754 as numpy and Python apply it (zero is
    taken as positive). *)

Inductive npfloat : Type :=
| Fin (r : R)
| PInf
| NInf
| NaN.

Definition inf_of_sign (r : R) : npfloat :=
  if Rlt_dec 0 r then PInf else if Rlt_dec r 0 then NInf else NaN.

Definition fneg (a : npfloat) : npfloat :=
  match a with
  | Fin x => Fin (- x)
  | PInf => NInf
  | NInf => PInf
  | NaN => NaN
  end.

Definition fadd (a b : npfloat) : npfloat :=
  match a, b with
  | NaN, _ | _, NaN => NaN
  | Fin x, Fin y => Fin (x + y)
  | PInf, NInf | NInf, PInf => NaN
  | PInf, _ | _, PInf => PInf
  | NInf, _ | _, NInf => NInf
  end.

Definition fsub (a b : npfloat) : npfloat := fadd a (fneg b).

Definition fmul (a b : npfloat) : npfloat :=
  match a, b with
  | NaN, _ | _, NaN => NaN
  | Fin x, Fin y => Fin (x * y)
  | Fin x, PInf | PInf, Fin x => inf_of_sign x
  | Fin x, NInf | NInf, Fin x => inf_of_sign (- x)
  | PInf, PInf | NInf, NInf => PInf
  | PInf, NInf | NInf, PInf => NInf
  end.

(** Division as numpy does it on arrays: a zero divisor raises nothing,
    [x / 0] is an infinity and [0 / 0] is NaN. *)
Definition fdiv (a b : npfloat) : npfloat :=
  match a, b with
  | NaN, _ | _, NaN => NaN
  | Fin x, Fin y => if Req_dec_T y 0 then inf_of_sign x else Fin (x / y)
  | Fin _, _ => Fin 0
  | PInf, Fin y => if Rlt_dec y 0 then NInf else PInf
  | NInf, Fin y => if Rlt_dec y 0 then PInf else NInf
  | _, _ => NaN
  end.

Definition fsqrt (a : npfloat) : npfloat :=
  match a with
  | Fin x => if Rlt_dec x 0 then NaN else Fin (sqrt x)
  | PInf => PInf
  | _ => NaN
  end.

(** [a < b]; every comparison with NaN is false. *)
Definition fltb (a b : npfloat) : bool :=
  match a, b with
  | NaN, _ | _, NaN => false
  | Fin x, Fin y => if Rlt_dec x y then true else false
  | NInf, NInf | PInf, _ | _, NInf => false
  | NInf, _ | _, PInf => true
  end.

Definition fgtb (a b : npfloat) : bool := fltb b a.

(** The builtins [min(a, b)] and [max(a, b)]: the first argument stays
    unless the second is strictly smaller (larger). *)
Definition py_min (a b : npfloat) : npfloat := if fltb b a then b else a.
Definition py_max (a b : npfloat) : npfloat := if fgtb b a then b else a.

(** The [math] module: NaN passes through, an argument outside the
    domain raises [ValueError]. *)
Definition math_radians (a : npfloat) : npfloat :=
  fmul a (Fin (PI / 180)).

Definition math_cos (a : npfloat) : result npfloat :=
  match a with
  | Fin x => Ok (Fin (cos x))
  | NaN => Ok NaN
  | _ => Raise ValueError
  end.

Definition math_sin (a : npfloat) : result npfloat :=
  match a with
  | Fin x => Ok (Fin (sin x))
  | NaN => Ok NaN
  | _ => Raise ValueError
  end.

Definition math_acos (a : npfloat) : result npfloat :=
  match a with
  | Fin x => if Rle_dec (-1) x then
               if Rle_dec x 1 then Ok (Fin (acos x)) else Raise ValueError
             else Raise ValueError
  | NaN => Ok NaN
  | _ => Raise ValueError
  end.

(** numpy arrays of three floats *)
Definition vec3 : Type := (npfloat * npfloat * npfloat)%type.

Definition vsub (u v : vec3) : vec3 :=
  let '(u0, u1, u2) := u in
  let '(v0, v1, v2) := v in
  (fsub u0 v0, fsub u1 v1, fsub u2 v2).

Definition vdiv (u : vec3) (d : npfloat) : vec3 :=
  let '(u0, u1, u2) := u in (fdiv u0 d, fdiv u1 d, fdiv u2 d).

Definition np_dot (u v : vec3) : npfloat :=
  let '(u0, u1, u2) := u in
  let '(v0, v1, v2) := v in
  fadd (fadd (fmul u0 v0) (fmul u1 v1)) (fmul u2 v2).

Definition np_linalg_norm (u : vec3) : npfloat := fsqrt (np_dot u u).

(** [np.cross(u, v)[2]] *)
Definition np_cross_2 (u v : vec3) : npfloat :=
  let '(u0, u1, _) := u in
  let '(v0, v1, _) := v in
  fsub (fmul u0 v1) (fmul u1 v0).

(** ** Messages and operator state *)

Record Location : Type := { loc_x : npfloat; loc_y : npfloat; loc_z : npfloat }.
Record Rotation : Type := { pitch : npfloat; yaw : npfloat; roll : npfloat }.
Record Transform : Type := { location : Location; rotation : Rotation }.

Record Flags : Type := {
  default_throttle : npfloat;
  throttle_max : npfloat;
  brake_strength : npfloat;
  steer_gain : npfloat
}.

Record CanBus : Type := { forward_speed : npfloat; transform : Transform }.

Record CanBusMessage : Type := { data : CanBus; timestamp : nat }.

Record WaypointsMessage : Type := {
  target_speed : npfloat;
  waypoints : list Transform
}.

Record ControlMessage : Type := {
  steer : npfloat;
  throttle : npfloat;
  brake : npfloat;
  hand_brake : bool;
  reverse : bool;
  ctl_timestamp : nat
}.

(** ** [PIDControlOperator]

    The class [PID] comes from the package [pid_controller]; the
    operator assigns its [target] and calls it with the measured speed.
    Both are taken as parameters: the call yields the output and the
    updated controller. *)

Section Operator.

Variable PID : Type.
Variable pid_set_target : PID -> npfloat -> PID.
Variable pid_call : PID -> npfloat -> npfloat * PID.

Record PIDControlOperator : Type := {
  _flags : Flags;
  _pid : PID;
  _vehicle_transform : option Transform;
  _last_waypoint_msg : option WaypointsMessage;
  _latest_speed : npfloat
}.

(** [__init__], given the controller built from the gains. *)
Definition init (flags : Flags) (pid : PID) : PIDControlOperator :=
  {| _flags := flags;
     _pid := pid;
     _vehicle_transform := None;
     _last_waypoint_msg := None;
     _latest_speed := Fin 0 |}.

Definition _get_throttle_brake (self : PIDControlOperator)
    (target_speed : npfloat) : PIDControlOperator * (npfloat * npfloat) :=
  let pid := pid_set_target (_pid self) target_speed in
  let '(pid_gain, pid) := pid_call pid (_latest_speed self) in
  let throttle :=
    py_min (py_max (fsub (default_throttle (_flags self))
                         (fmul (Fin (13 / 10)) pid_gain))
                   (Fin 0))
           (throttle_max (_flags self)) in
  let brake :=
    if fgtb pid_gain (Fin (5 / 10)) then
      py_min (fmul (fmul (Fin (35 / 100)) pid_gain)
                   (brake_strength (_flags self)))
             (Fin 1)
    else Fin 0 in
  ({| _flags := _flags self;
      _pid := pid;
      _vehicle_transform := _vehicle_transform self;
      _last_waypoint_msg := _last_waypoint_msg self;
      _latest_speed := _latest_speed self |},
   (throttle, brake)).

(** [_get_steering] in exact arithmetic, where the dot product of two
    unit vectors lies within [-1, 1].  On binary64 numbers it can round
    to a value above 1 and [math.acos] then raises: [Binary64] below
    has the function with every operation rounded. *)
Definition _get_steering (self : PIDControlOperator)
    (waypoint_transform : Transform) : result npfloat :=
  match _vehicle_transform self with
  | None => Raise AssertionError
  | Some vehicle_transform =>
      let wp_vector :=
        vsub (loc_x (location waypoint_transform),
              loc_y (location waypoint_transform),
              Fin 0)
             (loc_x (location vehicle_transform),
              loc_y (location vehicle_transform),
              Fin 0) in
      rbind (math_cos (math_radians (yaw (rotation vehicle_transform))))
        (fun c =>
      rbind (math_sin (math_radians (yaw (rotation vehicle_transform))))
        (fun s =>
      let v_vector : vec3 := (c, s, Fin 0) in
      let wp_vector := vdiv wp_vector (np_linalg_norm wp_vector) in
      let v_vector := vdiv v_vector (np_linalg_norm v_vector) in
      rbind (math_acos (np_dot v_vector wp_vector)) (fun angle =>
      let angle :=
        if fltb (np_cross_2 v_vector wp_vector) (Fin 0)
        then fmul angle (Fin (-1)) else angle in
      let steering := fmul (steer_gain (_flags self)) angle in
      Ok (if fgtb steering (Fin 0)
          then py_min steering (Fin 1)
          else py_max steering (Fin (-1))))))
  end.

(** The new state of the operator and what the callback sends on the
    control stream, or the exception that ends it. *)
Definition on_can_bus_update (self : PIDControlOperator)
    (msg : CanBusMessage) : PIDControlOperator * result ControlMessage :=
  let self :=
    {| _flags := _flags self;
       _pid := _pid self;
       _vehicle_transform := Some (transform (data msg));
       _last_waypoint_msg := _last_waypoint_msg self;
       _latest_speed := forward_speed (data msg) |} in
  match _last_waypoint_msg self with
  | Some wmsg =>
      let '(self, (throttle, brake)) :=
        _get_throttle_brake self (target_speed wmsg) in
      match waypoints wmsg with
      | [] => (self, Raise IndexError)
      | waypoint :: _ =>
          (self,
           rbind (_get_steering self waypoint) (fun steer =>
           Ok {| steer := steer; throttle := throttle; brake := brake;
                 hand_brake := false; reverse := false;
                 ctl_timestamp := timestamp msg |}))
      end
  | None =>
      (self,
       Ok {| steer := Fin 0; throttle := Fin 0; brake := Fin 0;
             hand_brake := false; reverse := false;
             ctl_timestamp := timestamp msg |})
  end.

Definition on_waypoint (self : PIDControlOperator)
    (msg : WaypointsMessage) : PIDControlOperator :=
  {| _flags := _flags self;
     _pid := _pid self;
     _vehicle_transform := _vehicle_transform self;
     _last_waypoint_msg := Some msg;
     _latest_speed := _latest_speed self |}.

(** The callbacks run one message at a time; an exception ends the
    callback that raised it. *)
Inductive event : Type :=
| CanBusEvent (msg : CanBusMessage)
| WaypointsEvent (msg : WaypointsMessage).

Fixpoint run (self : PIDControlOperator) (events : list event)
  : PIDControlOperator * list (result ControlMessage) :=
  match events with
  | [] => (self, [])
  | CanBusEvent msg :: events' =>
      let '(self, out) := on_can_bus_update self msg in
      let '(self, outs) := run self events' in
      (self, out :: outs)
  | WaypointsEvent msg :: events' => run (on_waypoint self msg) events'
  end.

End Operator.

Arguments _flags {PID}.
Arguments _pid {PID}.
Arguments _vehicle_transform {PID}.
Arguments _last_waypoint_msg {PID}.
Arguments _latest_speed {PID}.
Arguments init {PID}.
Arguments _get_steering {PID}.
Arguments on_waypoint {PID}.

(** ** A controller and messages to run the operator on *)

(** A proportional controller with gain 1 on (measured - target). *)
Definition p_set_target (_ : npfloat) (target : npfloat) : npfloat := target.
Definition p_call (target feedback : npfloat) : npfloat * npfloat :=
  (fsub feedback target, target).

Definition pose (x y yaw_deg : R) : Transform :=
  {| location := {| loc_x := Fin x; loc_y := Fin y; loc_z := Fin 0 |};
     rotation := {| pitch := Fin 0; yaw := Fin yaw_deg; roll := Fin 0 |} |}.

Definition flags0 : Flags :=
  {| default_throttle := Fin 1;
     throttle_max := Fin (1 / 2);
     brake_strength := Fin 1;
     steer_gain := Fin 1 |}.

Definition can_bus (speed x y yaw_deg : R) (t : nat) : CanBusMessage :=
  {| data := {| forward_speed := Fin speed; transform := pose x y yaw_deg |};
     timestamp := t |}.

(** The operator with a known vehicle pose and last waypoint message. *)
Definition driving (vehicle : Transform) (wmsg : option WaypointsMessage)
  : PIDControlOperator npfloat :=
  {| _flags := flags0;
     _pid := Fin 0;
     _vehicle_transform := Some vehicle;
     _last_waypoint_msg := wmsg;
     _latest_speed := Fin 0 |}.

(** ** The control laws in the words of the specification *)

Definition clamp (x lo hi : R) : R := Rmin (Rmax x lo) hi.

Definition throttle_law (base_throttle max_throttle gain : R) : R :=
  clamp (base_throttle - 13 / 10 * gain) 0 max_throttle.

Definition brake_law (strength gain : R) : R :=
  if Rlt_dec (5 / 10) gain then Rmin (35 / 100 * gain * strength) 1 else 0.

(** Planar vectors. *)
Definition norm2 (u : R * R) : R := sqrt (fst u * fst u + snd u * snd u).

Definition normalize2 (u : R * R) : R * R :=
  (fst u / norm2 u, snd u / norm2 u).

Definition dot2 (u v : R * R) : R := fst u * fst v + snd u * snd v.

(** The z-component of the cross product of two planar vectors. *)
Definition cross_z (u v : R * R) : R := fst u * snd v - snd u * fst v.

Definition heading (yaw_deg : R) : R * R :=
  normalize2 (cos (yaw_deg * (PI / 180)), sin (yaw_deg * (PI / 180))).

Definition to_waypoint (vx vy wx wy : R) : R * R :=
  normalize2 (wx - vx, wy - vy).

Definition steering_law (gain yaw_deg vx vy wx wy : R) : R :=
  let h := heading yaw_deg in
  let w := to_waypoint vx vy wx wy in
  let angle := acos (dot2 h w) in
  let angle := if Rlt_dec (cross_z h w) 0 then - angle else angle in
  let steering := gain * angle in
  if Rlt_dec 0 steering then Rmin steering 1 else Rmax steering (-1).

Definition neutral (t : nat) : ControlMessage :=
  {| steer := Fin 0; throttle := Fin 0; brake := Fin 0;
     hand_brake := false; reverse := false; ctl_timestamp := t |}.

(** A plan: drive at 10 towards the point (10, 0). *)
Definition plan0 : WaypointsMessage :=
  {| target_speed := Fin 10; waypoints := [pose 10 0 0] |}.

(** ** [planning/utils.py] *)

Definition math_sqrt (a : npfloat) : result npfloat :=
  match a with
  | Fin x => if Rlt_dec x 0 then Raise ValueError else Ok (Fin (sqrt x))
  | PInf => Ok PInf
  | NInf => Raise ValueError
  | NaN => Ok NaN
  end.

(** [get_distance], with [x_diff**2] as the exact product: the
    [OverflowError] of [**] on a finite float whose square exceeds the
    largest float is left out, see [moderate] below. *)
Definition get_distance (loc1 loc2 : Location) : result npfloat :=
  let x_diff := fsub (loc_x loc1) (loc_x loc2) in
  let y_diff := fsub (loc_y loc1) (loc_y loc2) in
  math_sqrt (fadd (fmul x_diff x_diff) (fmul y_diff y_diff)).

Definition get_target_speed (vehicle_loc : Location) (waypoint : Transform)
  : result npfloat :=
  rbind (get_distance (location waypoint) vehicle_loc) (fun distance =>
  if fgtb distance (Fin (8 / 100)) then Ok (Fin 10) else Ok (Fin 0)).

(** A float that is not negative: what a sum of squares can be. *)
Definition not_negative (a : npfloat) : Prop :=
  match a with
  | Fin x => 0 <= x
  | NInf => False
  | _ => True
  end.

(** A plan without a waypoint. *)
Definition empty_plan : WaypointsMessage :=
  {| target_speed := Fin 10; waypoints := [] |}.

(** ** The matrix of [simulation.utils.Transform]

    [Transform.__init__] without the [matrix] argument, on finite
    values: the 4 x 4 matrix it fills in. *)

Record Scale : Type := { scale_x : R; scale_y : R; scale_z : R }.

(** [Scale()] *)
Definition Scale_default : Scale :=
  {| scale_x := 1; scale_y := 1; scale_z := 1 |}.

Definition np_radians (deg : R) : R := deg * (PI / 180).

Definition Transform_matrix (pos : R * R * R) (pitch yaw roll : R)
    (scale : option Scale) : list (list R) :=
  let scale := match scale with
               | None => Scale_default
               | Some sc => sc
               end in
  let cy := cos (np_radians yaw) in
  let sy := sin (np_radians yaw) in
  let cr := cos (np_radians roll) in
  let sr := sin (np_radians roll) in
  let cp := cos (np_radians pitch) in
  let sp := sin (np_radians pitch) in
  [ [ scale_x scale * (cp * cy);
      scale_y scale * (cy * sp * sr - sy * cr);
      - scale_z scale * (cy * sp * cr + sy * sr);
      fst (fst pos) ];
    [ scale_x scale * (sy * cp);
      scale_y scale * (sy * sp * sr + cy * cr);
      scale_z scale * (cy * sr - sy * sp * cr);
      snd (fst pos) ];
    [ scale_x scale * sp;
      - scale_y scale * (cp * sr);
      scale_z scale * (cp * cr);
      snd pos ];
    [ 0; 0; 0; 1 ] ].

Definition rentry (m : list (list R)) (i j : nat) : R :=
  nth j (nth i m []) 0.

(** The dot product of columns [i] and [j] of the upper three rows. *)
Definition column_dot (m : list (list R)) (i j : nat) : R :=
  rentry m 0 i * rentry m 0 j + rentry m 1 i * rentry m 1 j
  + rentry m 2 i * rentry m 2 j.

Definition scale_of (scale : Scale) (i : nat) : R :=
  match i with
  | O => scale_x scale
  | S O => scale_y scale
  | _ => scale_z scale
  end.

(** A coordinate whose square does not overflow: NaN, an infinity, or a
    finite value of magnitude at most 1e150.  [x ** 2] on a finite
    Python float raises [OverflowError] beyond about 1.34e154, which
    [get_distance] above does not model. *)
Definition moderate (a : npfloat) : Prop :=
  match a with
  | Fin x => Rabs x <= 10 ^ 150
  | _ => True
  end.

End Control.

Module Text.

Import String Ascii.
Local Open Scope string_scope.

(** ** [str.format] with automatically numbered fields

    The template is read from the left: [{{] and [}}] stand for one
    brace, [{}] takes the next positional argument and raises
    [IndexError] when there is none left, a lone closing brace raises
    [ValueError].  Fields with a name, an index or a format
    specification are outside this model ([None]). *)

Definition prepend (c : ascii) (r : option (result string))
  : option (result string) :=
  match r with
  | Some (Ok s) => Some (Ok (String c s))
  | other => other
  end.

Definition prepend_string (a : string) (r : option (result string))
  : option (result string) :=
  match r with
  | Some (Ok s) => Some (Ok (a ++ s))
  | other => other
  end.

Fixpoint format (template : string) (args : list string)
  : option (result string) :=
  match template with
  | EmptyString => Some (Ok EmptyString)
  | String "{" (String "{" rest) => prepend "{" (format rest args)
  | String "{" (String "}" rest) =>
      match args with
      | [] => Some (Raise IndexError)
      | a :: args' => prepend_string a (format rest args')
      end
  | String "{" _ => None
  | String "}" (String "}" rest) => prepend "}" (format rest args)
  | String "}" _ => Some (Raise ValueError)
  | String c rest => prepend c (format rest args)
  end.

(** [BoundingBox.__str__], given [str(self.transform)] and the text of
    [self.extent]. *)
Definition BoundingBox_str (transform_str extent_str : string)
  : option (result string) :=
  format "transform: {}, x: {}, y: {}, z: {}" [transform_str; extent_str].

(** [BoundingBox.__repr__] *)
Definition BoundingBox_repr (transform_str extent_str : string)
  : option (result string) :=
  BoundingBox_str transform_str extent_str.

End Text.

Module Binary64.

Import PrimFloat.
Local Open Scope float_scope.

(** ** [_get_steering] on binary64 numbers

    Every operation rounds as IEEE 754 prescribes; the sums of
    [np.linalg.norm] and [np.dot] are taken from the left, each product
    rounded on its own.  [cos], [sin] and [acos] of the C library are
    parameters: the [math] module adds the domain checks. *)

Section Libm.

Variables libm_cos libm_sin libm_acos : float -> float.

(** [math.radians]: the argument times the constant [pi / 180]. *)
Definition math_radians (x : float) : float := x * 0x1.1df46a2529d39p-6.

Definition is_inf (x : float) : bool := abs x =? infinity.

Definition math_cos (x : float) : result float :=
  if is_inf x then Raise ValueError else Ok (libm_cos x).

Definition math_sin (x : float) : result float :=
  if is_inf x then Raise ValueError else Ok (libm_sin x).

Definition math_acos (x : float) : result float :=
  if (x <? - 1) || (1 <? x) then Raise ValueError else Ok (libm_acos x).

Definition vec3 : Type := (float * float * float)%type.

Definition vsub (u v : vec3) : vec3 :=
  let '(u0, u1, u2) := u in
  let '(v0, v1, v2) := v in
  (u0 - v0, u1 - v1, u2 - v2).

Definition vdiv (u : vec3) (d : float) : vec3 :=
  let '(u0, u1, u2) := u in (u0 / d, u1 / d, u2 / d).

Definition np_dot (u v : vec3) : float :=
  let '(u0, u1, u2) := u in
  let '(v0, v1, v2) := v in
  (u0 * v0 + u1 * v1) + u2 * v2.

Definition np_linalg_norm (u : vec3) : float := sqrt (np_dot u u).

Definition np_cross_2 (u v : vec3) : float :=
  let '(u0, u1, _) := u in
  let '(v0, v1, _) := v in
  u0 * v1 - u1 * v0.

Definition py_min (a b : float) : float := if b <? a then b else a.
Definition py_max (a b : float) : float := if a <? b then b else a.

(** Position and yaw of a transform. *)
Record Pose : Type := { pos_x : float; pos_y : float; yaw_deg : float }.

Definition _get_steering (steer_gain : float)
    (vehicle_transform : option Pose) (waypoint_transform : Pose)
  : result float :=
  match vehicle_transform with
  | None => Raise AssertionError
  | Some vehicle_transform =>
      let wp_vector :=
        vsub (pos_x waypoint_transform, pos_y waypoint_transform, 0)
             (pos_x vehicle_transform, pos_y vehicle_transform, 0) in
      rbind (math_cos (math_radians (yaw_deg vehicle_transform))) (fun c =>
      rbind (math_sin (math_radians (yaw_deg vehicle_transform))) (fun s =>
      let v_vector : vec3 := (c, s, 0) in
      let wp_vector := vdiv wp_vector (np_linalg_norm wp_vector) in
      let v_vector := vdiv v_vector (np_linalg_norm v_vector) in
      rbind (math_acos (np_dot v_vector wp_vector)) (fun angle =>
      let angle :=
        if np_cross_2 v_vector wp_vector <? 0 then angle * (- 1) else angle in
      let steering := steer_gain * angle in
      Ok (if 0 <? steering
          then py_min steering 1
          else py_max steering (- 1)))))
  end.

End Libm.

(** The values the C library returns for the cosine and the sine of
    [math.radians(4.0)]. *)
Definition cos_4_degrees : float := 0x1.fec0b7170fff6p-1.
Definition sin_4_degrees : float := 0x1.1db8f6d6a5128p-4.

(** A vehicle at the origin heading 4 degrees and a waypoint one unit
    straight ahead of it. *)
Definition vehicle_4_degrees : Pose :=
  {| pos_x := 0; pos_y := 0; yaw_deg := 4 |}.

Definition waypoint_ahead : Pose :=
  {| pos_x := cos_4_degrees; pos_y := sin_4_degrees; yaw_deg := 0 |}.

(** A float within [-1, 1]; false for NaN. *)
Definition in_range (r : float) : bool := (- 1 <=? r) && (r <=? 1).

End Binary64.

(** * Properties of the projection *)

Module ProjectionFacts.

Import Projection.
Import Lqa.
Local Open Scope Q_scope.

Lemma Qltb_lt (x y : Q) : Qltb x y = true <-> x < y.
Proof.
  unfold Qltb. rewrite negb_true_iff.
  destruct (Qle_bool y x) eqn:E.
  - apply Qle_bool_iff in E. split; [discriminate | intro; lra].
  - split; [intros _ | reflexivity].
    apply Qnot_le_lt. intro HH. apply Qle_bool_iff in HH. congruence.
Qed.

Lemma Qgtb_gt (x y : Q) : Qgtb x y = true <-> y < x.
Proof. apply Qltb_lt. Qed.

Lemma Qgeb_ge (x y : Q) : Qgeb x y = true <-> y <= x.
Proof. apply Qle_bool_iff. Qed.

Lemma Qltb_ge (x y : Q) : Qltb x y = false <-> y <= x.
Proof.
  unfold Qltb. rewrite negb_false_iff. apply Qle_bool_iff.
Qed.

Lemma visibleb_spec (width height : Z) (p : corner) :
  visibleb width height p = true <-> visible width height p.
Proof.
  unfold visibleb, visible.
  rewrite !andb_true_iff, !orb_true_iff, Qgtb_gt, !Qgeb_ge, !Qltb_lt.
  tauto.
Qed.

(** The loop returns the visible projections of the vertices, in the
    order of the vertices, after what was already collected. *)
Lemma map_ground_loop_spec W H ext K :
  forall bbox coords out,
    map_ground_loop W H ext K bbox coords = Ok out ->
    exists locs,
      Forall2 (fun v l => project_vertex W H ext K v = Ok l) bbox locs /\
      out = coords ++ filter (visibleb W H) locs.
Proof.
  induction bbox as [|v bbox IH]; intros coords out Hrun; simpl in Hrun.
  - injection Hrun as <-. exists []. split; [constructor|].
    simpl. now rewrite app_nil_r.
  - destruct (project_vertex W H ext K v) as [loc|e] eqn:Hp;
      simpl in Hrun; [|discriminate].
    apply IH in Hrun. destruct Hrun as (locs & Hall & ->).
    exists (loc :: locs). split; [now constructor|].
    simpl. unfold visibleb at 2.
    destruct (Qgtb (cz loc) 0); simpl; [|reflexivity].
    destruct ((Qgeb (cx loc) 0 || Qgeb (cy loc) 0)
              && (Qltb (cx loc) (inject_Z W) || Qltb (cy loc) (inject_Z H)));
      [now rewrite <- app_assoc | reflexivity].
Qed.

Lemma Forall2_project_In {A B} (f : A -> result B) :
  forall (l : list A) (l' : list B),
    Forall2 (fun a b => f a = Ok b) l l' ->
    (forall a b, In a l -> f a = Ok b -> In b l') /\
    (forall b, In b l' -> exists a, In a l /\ f a = Ok b).
Proof.
  induction 1 as [|a b l l' Hab Hall [IH1 IH2]]; split; simpl.
  - intros ? ? [].
  - intros ? [].
  - intros a0 b0 [<-|Hin] Hf.
    + left. congruence.
    + right. eauto.
  - intros b0 [<-|Hin].
    + exists a. auto.
    + destruct (IH2 _ Hin) as (a0 & ? & ?). exists a0. auto.
Qed.

(** C1, amended.  A projected corner is returned exactly when its depth
    is positive, x >= 0 or y >= 0, and x < width or y < height; and
    every returned corner is the projection of a vertex of the box. *)
Theorem map_ground_keeps_visible
    (veh obj : Transform) (bb : BoundingBox) (rgb : Transform) (K : mat)
    (W H : Z) (coords : list corner) :
  map_ground_bounding_box_to_2D veh obj bb rgb K (W, H) = Ok coords ->
  (forall vertex loc,
      In vertex (world_vertices obj bb) ->
      project_vertex W H (Transform_mul veh rgb) K vertex = Ok loc ->
      (In loc coords <-> visible W H loc)) /\
  (forall loc,
      In loc coords ->
      exists vertex,
        In vertex (world_vertices obj bb) /\
        project_vertex W H (Transform_mul veh rgb) K vertex = Ok loc).
Proof.
  unfold map_ground_bounding_box_to_2D. intros Hrun.
  apply map_ground_loop_spec in Hrun. destruct Hrun as (locs & Hall & ->).
  apply Forall2_project_In in Hall. destruct Hall as [Hfwd Hbwd].
  simpl. split.
  - intros vertex loc Hin Hp. rewrite filter_In, visibleb_spec.
    split; [tauto|]. intro Hv. split; [eauto | exact Hv].
  - intros loc Hin. apply filter_In in Hin. apply Hbwd. tauto.
Qed.

Lemma map_ground_keeps_visible_witness :
  exists coords,
    map_ground_bounding_box_to_2D origin origin (unit_cube_at 0 0 10) origin
                                  camera99 (100, 100)%Z = Ok coords /\
    forall vertex loc,
      In vertex (world_vertices origin (unit_cube_at 0 0 10)) ->
      project_vertex 100 100 (Transform_mul origin origin) camera99 vertex
      = Ok loc ->
      (In loc coords <-> visible 100 100 loc).
Proof.
  eexists. split; [vm_compute; reflexivity|].
  apply (map_ground_keeps_visible origin origin (unit_cube_at 0 0 10) origin
                                  camera99 100 100).
  vm_compute. reflexivity.
Defined.

(** C1 as stated fails: the first corner of [offscreen_cube] projects to
    x = -31, y = 113 at depth 11; neither coordinate is within the
    100 x 100 image, and the corner is returned. *)
Lemma offscreen_corner_is_kept :
  exists vertex loc coords,
    In vertex (world_vertices origin offscreen_cube) /\
    project_vertex 100 100 (Transform_mul origin origin) camera99 vertex
    = Ok loc /\
    map_ground_bounding_box_to_2D origin origin offscreen_cube origin
                                  camera99 (100, 100)%Z = Ok coords /\
    In loc coords /\
    (cx loc == -31 /\ cy loc == 113 /\ cz loc == 11) /\
    ~ claimed_visible 100 100 loc.
Proof.
  eexists. eexists. eexists.
  split; [left; reflexivity|].
  split; [vm_compute; reflexivity|].
  split; [vm_compute; reflexivity|].
  split; [left; reflexivity|].
  split; [repeat split; reflexivity|].
  unfold claimed_visible. intros [_ [[Hx _]|[_ Hy]]].
  - vm_compute in Hx. apply Hx. reflexivity.
  - vm_compute in Hy. discriminate Hy.
Qed.

(** ** The opposite ends *)

Lemma too_close_spec (a b : corner) :
  too_close a b = true <->
  Qabs (cx a - cx b) <= 8 # 10 \/ Qabs (cy a - cy b) <= 8 # 10.
Proof.
  unfold too_close. now rewrite orb_true_iff, !Qle_bool_iff.
Qed.

Lemma sq_distance_eq (a b : corner) :
  sq_distance a b == (cx b - cx a) * (cx b - cx a)
                     + (cy b - cy a) * (cy b - cy a).
Proof. unfold sq_distance. simpl. ring. Qed.

Lemma sum_squares_positive (x y : Q) : ~ x == 0 -> 0 < x * x + y * y.
Proof.
  intro Hx.
  assert (0 <= y * y) by nra.
  assert (0 < x * x).
  { destruct (Qlt_le_dec x 0); [nra|]. destruct (Qlt_le_dec 0 x); [nra|].
    exfalso. apply Hx. lra. }
  lra.
Qed.

Lemma far_apart_positive (a b : corner) :
  too_close a b = false -> 0 < sq_distance a b.
Proof.
  intro Hfar. rewrite sq_distance_eq. apply sum_squares_positive.
  intro Hzero.
  assert (Hc : too_close a b = true); [|congruence].
  apply too_close_spec. left. apply Qabs_Qle_condition. lra.
Qed.

Lemma corners_step_inv seen st a b :
  loop_inv seen st -> loop_inv (seen ++ [(a, b)]) (corners_step st (a, b)).
Proof.
  destruct st as [m o]. unfold loop_inv, corners_step. simpl.
  destruct (too_close a b) eqn:Hclose.
  - (* the pair is skipped *)
    destruct o as [pq|]; simpl.
    + intros (a0 & b0 & (before & after & -> & Hfar & Hb & Ha) & Hm & Hpq).
      exists a0, b0. split; [|auto].
      exists before, (after ++ [(a, b)]). rewrite <- app_assoc. simpl.
      repeat split; auto.
      intros c d Hin Hcd. apply in_app_or in Hin. destruct Hin as [Hin|Hin].
      * auto.
      * simpl in Hin. destruct Hin as [E|[]]. injection E as <- <-.
        congruence.
    + intros [Hm Hall]. split; [assumption|].
      intros c d Hin. apply in_app_or in Hin. destruct Hin as [Hin|Hin].
      * auto.
      * simpl in Hin. destruct Hin as [E|[]]. injection E as <- <-.
        assumption.
  - destruct (Qgtb (sq_distance a b) m) eqn:Hgt.
    + (* a new maximum *)
      intros Hinv. simpl.
      assert (Hor : (if Qltb (cx a) (cx b) && Qltb (cy a) (cy b)
                     then Some (a, b) else Some (b, a)) = Some (orient a b)).
      { unfold orient. now destruct (Qltb (cx a) (cx b) && Qltb (cy a) (cy b)). }
      rewrite Hor. simpl. exists a, b. split; [|auto].
      exists seen, []. repeat split; auto.
      * apply Qgtb_gt in Hgt.
        destruct o as [pq|]; simpl in Hinv.
        -- destruct Hinv as (a0 & b0 & (before & after & -> & Hfar & Hb & Ha)
                             & Hm & Hpq). subst m.
           intros c d Hin Hcd. apply in_app_or in Hin.
           destruct Hin as [Hin|Hin].
           ++ specialize (Hb c d Hin Hcd). lra.
           ++ simpl in Hin. destruct Hin as [E|Hin].
              ** injection E as <- <-. assumption.
              ** specialize (Ha c d Hin Hcd). lra.
        -- destruct Hinv as [Hm Hall]. intros c d Hin Hcd.
           apply Hall in Hin. congruence.
      * intros c d [].
    + (* not larger than the maximum *)
      apply Qltb_ge in Hgt.
      destruct o as [pq|]; simpl.
      * intros (a0 & b0 & (before & after & -> & Hfar & Hb & Ha) & Hm & Hpq).
        subst m. exists a0, b0. split; [|auto].
        exists before, (after ++ [(a, b)]). rewrite <- app_assoc. simpl.
        repeat split; auto.
        intros c d Hin Hcd. apply in_app_or in Hin. destruct Hin as [Hin|Hin].
        -- auto.
        -- simpl in Hin. destruct Hin as [E|[]]. injection E as <- <-.
           assumption.
      * intros [-> _]. apply far_apart_positive in Hclose. lra.
Qed.

Lemma corners_loop_inv :
  forall pairs seen st,
    loop_inv seen st ->
    loop_inv (seen ++ pairs) (fold_left corners_step pairs st).
Proof.
  induction pairs as [|[a b] pairs IH]; intros seen st Hinv; simpl.
  - now rewrite app_nil_r.
  - replace (seen ++ (a, b) :: pairs) with ((seen ++ [(a, b)]) ++ pairs)
      by (rewrite <- app_assoc; reflexivity).
    apply IH. now apply corners_step_inv.
Qed.

Lemma far_apart_distinct (a b : corner) :
  too_close a b = false -> ~ cx a == cx b /\ ~ cy a == cy b.
Proof.
  intro Hfar.
  split; intro Heq;
    (assert (Hc : too_close a b = true); [|congruence]);
    apply too_close_spec; [left|right]; apply Qabs_Qle_condition; lra.
Qed.

(** C3, amended.  Pairs with an x- or y-separation of at most 0.8 are
    skipped; with no other pair the result is no pair; otherwise it is
    the first pair of largest squared distance among the others, stored
    with the corner that is smaller in x and in y first when there is
    one, and with the later corner first when the pair lies on the
    falling diagonal. *)
Theorem get_bounding_box_from_corners_spec (corners : list corner) :
  match get_bounding_box_from_corners corners with
  | None =>
      forall a b, In (a, b) (combinations2 corners) -> too_close a b = true
  | Some (p, q) =>
      exists a b,
        first_farthest (combinations2 corners) a b /\
        ((cx a < cx b /\ cy a < cy b /\ (p, q) = (a, b)) \/
         (cx b < cx a /\ cy b < cy a /\ (p, q) = (b, a)) \/
         ((cx a < cx b /\ cy b < cy a \/ cx b < cx a /\ cy a < cy b) /\
          (p, q) = (b, a)))
  end.
Proof.
  unfold get_bounding_box_from_corners.
  assert (Hinv : loop_inv ([] ++ combinations2 corners)
                   (fold_left corners_step (combinations2 corners) (0, None))).
  { apply corners_loop_inv. simpl. split; [reflexivity|]. intros ? ? []. }
  simpl in Hinv. unfold loop_inv in Hinv.
  destruct (snd (fold_left corners_step (combinations2 corners) (0, None)))
    as [[p q]|].
  - destruct Hinv as (a & b & Hbest & _ & Hpq).
    exists a, b. split; [assumption|].
    destruct Hbest as (_ & _ & _ & Hfar & _).
    apply far_apart_distinct in Hfar. destruct Hfar as [Hx Hy].
    unfold orient in Hpq.
    destruct (Qltb (cx a) (cx b)) eqn:Ex; destruct (Qltb (cy a) (cy b)) eqn:Ey;
      simpl in Hpq;
      try apply Qltb_lt in Ex; try apply Qltb_lt in Ey;
      try apply Qltb_ge in Ex; try apply Qltb_ge in Ey.
    + left. auto.
    + right. right. split; [|assumption]. left. split; [assumption|].
      apply Qle_lteq in Ey. destruct Ey as [Ey|Ey]; [assumption|].
      exfalso. apply Hy. now symmetry.
    + right. right. split; [|assumption]. right. split; [|assumption].
      apply Qle_lteq in Ex. destruct Ex as [Ex|Ex]; [assumption|].
      exfalso. apply Hx. now symmetry.
    + right. left.
      apply Qle_lteq in Ex. apply Qle_lteq in Ey.
      destruct Ex as [Ex|Ex]; [|exfalso; apply Hx; now symmetry].
      destruct Ey as [Ey|Ey]; [|exfalso; apply Hy; now symmetry].
      auto.
  - apply Hinv.
Qed.

(** C3 as stated fails: of [falling_corners] the farthest pair is
    (0, 10), (10, 0); it is returned with (10, 0) first, whose x is the
    larger one. *)
Lemma falling_diagonal_not_ordered :
  get_bounding_box_from_corners falling_corners
  = Some ((10, 0, 1), (0, 10, 1)) /\
  ~ (cx (10, 0, 1) < cx (0, 10, 1) /\ cy (10, 0, 1) < cy (0, 10, 1)).
Proof.
  split; [vm_compute; reflexivity|].
  intros [Hx _]. vm_compute in Hx. discriminate Hx.
Qed.

(** ** No box without eight corners *)

Lemma bind_lift_Ok {A B} (a : A) (k : A -> M B) : bind (lift (Ok a)) k = k a.
Proof. unfold bind, lift. now destruct (k a). Qed.

Lemma bind_lift_Raise {A B} (e : exn) (k : A -> M B) :
  bind (lift (Raise e)) k = ([], Raise e).
Proof. reflexivity. Qed.

Lemma map_ground_loop_behind W H ext K :
  forall bbox coords,
    Forall (fun v => exists loc,
                project_vertex W H ext K v = Ok loc /\ cz loc <= 0) bbox ->
    map_ground_loop W H ext K bbox coords = Ok coords.
Proof.
  induction bbox as [|v bbox IH]; intros coords Hall; simpl.
  - reflexivity.
  - inversion Hall as [|? ? (loc & Hp & Hz) Hrest]; subst.
    rewrite Hp. simpl.
    assert (Hgt : Qgtb (cz loc) 0 = false) by now apply Qltb_ge.
    rewrite Hgt. now apply IH.
Qed.

Lemma not_eight_no_box depth veh obj bb rgb K size mt nt corners :
  map_ground_bounding_box_to_2D veh obj bb rgb K size = Ok corners ->
  length corners <> 8%nat ->
  get_2d_bbox_from_3d_box depth veh obj bb rgb K size mt nt = ([], Ok None).
Proof.
  intros Hc Hlen. unfold get_2d_bbox_from_3d_box.
  rewrite Hc, bind_lift_Ok.
  apply Nat.eqb_neq in Hlen. now rewrite Hlen.
Qed.

(** C2.  With fewer than 8 surviving corners the result is no box; so it
    is when all 8 vertices project with a depth that is not positive,
    and nothing is raised. *)
Theorem fewer_than_eight_no_box
    (depth : mat) (veh obj : Transform) (bb : BoundingBox) (rgb : Transform)
    (K : mat) (W H : Z) (mt nt : Q) :
  (forall corners,
      map_ground_bounding_box_to_2D veh obj bb rgb K (W, H) = Ok corners ->
      (length corners < 8)%nat ->
      get_2d_bbox_from_3d_box depth veh obj bb rgb K (W, H) mt nt
      = ([], Ok None)) /\
  (Forall (fun v => exists loc,
               project_vertex W H (Transform_mul veh rgb) K v = Ok loc /\
               cz loc <= 0)
          (world_vertices obj bb) ->
   get_2d_bbox_from_3d_box depth veh obj bb rgb K (W, H) mt nt
   = ([], Ok None)).
Proof.
  split.
  - intros corners Hc Hlen. apply (not_eight_no_box _ _ _ _ _ _ _ _ _ corners).
    + assumption.
    + lia.
  - intros Hall. apply (not_eight_no_box _ _ _ _ _ _ _ _ _ []).
    + unfold map_ground_bounding_box_to_2D.
      now apply map_ground_loop_behind.
    + discriminate.
Qed.

Lemma fewer_than_eight_no_box_witness :
  Forall (fun v => exists loc,
              project_vertex 100 100 (Transform_mul origin origin) camera99 v
              = Ok loc /\ cz loc <= 0)
         (world_vertices origin cube_behind) /\
  get_2d_bbox_from_3d_box (depth_buffer 1 []) origin origin cube_behind origin
                          camera99 (100, 100)%Z (1 # 10) 1
  = ([], Ok None).
Proof.
  assert (Hall : Forall (fun v => exists loc,
              project_vertex 100 100 (Transform_mul origin origin) camera99 v
              = Ok loc /\ cz loc <= 0)
         (world_vertices origin cube_behind)).
  { repeat constructor;
      (eexists; split; [vm_compute; reflexivity | vm_compute; discriminate]). }
  split; [exact Hall|].
  apply (fewer_than_eight_no_box (depth_buffer 1 []) origin origin cube_behind
           origin camera99 100 100 (1 # 10) 1).
  exact Hall.
Defined.

(** ** The filter on small boxes *)

Lemma bind_Ok_inv {A B} (m : M A) (k : A -> M B) log b :
  bind m k = (log, Ok b) ->
  exists l1 a l2, m = (l1, Ok a) /\ k a = (l2, Ok b) /\ log = l1 ++ l2.
Proof.
  destruct m as [l1 [a|e]]; simpl; [|discriminate].
  destruct (k a) as [l2 r] eqn:Hk. intros Heq. injection Heq as <- ->.
  exists l1, a, l2. auto.
Qed.

Lemma big_enough_spec (W H xmin xmax ymin ymax : Z) :
  big_enough (W, H) (xmin, xmax, ymin, ymax) = true <->
  inject_Z W * (1 # 100) < inject_Z (xmax - xmin) /\
  inject_Z H * (2 # 100) < inject_Z (ymax - ymin) /\
  inject_Z (W * H) * (4 # 10000) < inject_Z ((xmax - xmin) * (ymax - ymin)).
Proof.
  unfold big_enough. simpl fst. simpl snd.
  rewrite !andb_true_iff, !Qgtb_gt. tauto.
Qed.

Lemma accept_inv size ends log (b : box) :
  (if big_enough size (select_max_bbox ends)
   then ret (Some (select_max_bbox ends)) else ret None) = (log, Ok (Some b)) ->
  b = select_max_bbox ends /\ big_enough size b = true.
Proof.
  destruct (big_enough size (select_max_bbox ends)) eqn:Hbig; unfold ret;
    intro Heq; [|discriminate].
  injection Heq as _ <-. auto.
Qed.

(** A returned box is the box of the chosen ends and passed the filter. *)
Lemma returned_box_inv depth veh obj bb rgb K size mt nt log b :
  get_2d_bbox_from_3d_box depth veh obj bb rgb K size mt nt
  = (log, Ok (Some b)) ->
  exists corners ends,
    map_ground_bounding_box_to_2D veh obj bb rgb K size = Ok corners /\
    length corners = 8%nat /\
    get_bounding_box_from_corners corners = Some ends /\
    b = select_max_bbox ends /\
    big_enough size b = true.
Proof.
  unfold get_2d_bbox_from_3d_box. intro Hrun.
  destruct (map_ground_bounding_box_to_2D veh obj bb rgb K size)
    as [corners|e]; [|discriminate].
  rewrite bind_lift_Ok in Hrun.
  destruct (length corners =? 8)%nat eqn:Hlen; [|discriminate].
  apply Nat.eqb_eq in Hlen.
  destruct (get_bounding_box_from_corners corners) as [ends|] eqn:Hends;
    [|discriminate].
  exists corners, ends.
  assert (Hb : b = select_max_bbox ends /\ big_enough size b = true).
  { destruct (get_bounding_box_sampling_points ends) as [mp pts].
    apply bind_Ok_inv in Hrun. destruct Hrun as (l1 & gate & l2 & _ & Hk & _).
    destruct gate.
    - now apply accept_inv in Hk.
    - apply bind_Ok_inv in Hk. destruct Hk as (l3 & sdp & l4 & _ & Hk & _).
      destruct (enough_same_depth sdp); [|discriminate].
      now apply accept_inv in Hk. }
  destruct Hb. repeat split; auto.
Qed.

(** C7.  A returned box is wider than 1% of the image width, higher than
    2% of the image height and larger than 0.04% of the image area; a
    box of the chosen ends that fails one of the three is not returned. *)
Theorem returned_box_not_small
    (depth : mat) (veh obj : Transform) (bb : BoundingBox) (rgb : Transform)
    (K : mat) (W H : Z) (mt nt : Q) :
  (forall log xmin xmax ymin ymax,
      get_2d_bbox_from_3d_box depth veh obj bb rgb K (W, H) mt nt
      = (log, Ok (Some (xmin, xmax, ymin, ymax))) ->
      inject_Z W * (1 # 100) < inject_Z (xmax - xmin) /\
      inject_Z H * (2 # 100) < inject_Z (ymax - ymin) /\
      inject_Z (W * H) * (4 # 10000)
      < inject_Z ((xmax - xmin) * (ymax - ymin))) /\
  (forall corners ends,
      map_ground_bounding_box_to_2D veh obj bb rgb K (W, H) = Ok corners ->
      get_bounding_box_from_corners corners = Some ends ->
      big_enough (W, H) (select_max_bbox ends) = false ->
      forall b,
        snd (get_2d_bbox_from_3d_box depth veh obj bb rgb K (W, H) mt nt)
        <> Ok (Some b)).
Proof.
  split.
  - intros log xmin xmax ymin ymax Hrun.
    apply returned_box_inv in Hrun.
    destruct Hrun as (corners & ends & _ & _ & _ & _ & Hbig).
    now apply big_enough_spec.
  - intros corners ends Hc Hends Hsmall b Hrun.
    destruct (get_2d_bbox_from_3d_box depth veh obj bb rgb K (W, H) mt nt)
      as [log r] eqn:Hget.
    simpl in Hrun. subst r. apply returned_box_inv in Hget.
    destruct Hget as (corners' & ends' & Hc' & _ & Hends' & -> & Hbig).
    congruence.
Qed.

(** ** Reads of the depth buffer *)

Lemma py_int_bounds (x : Q) (n : Z) :
  0 <= x -> x < inject_Z n -> (0 <= py_int x < n)%Z.
Proof.
  destruct x as [num den]. unfold py_int, Qle, Qlt, inject_Z. simpl.
  intros Hpos Hlt. rewrite Z.mul_1_r in Hpos, Hlt.
  rewrite Z.quot_div_nonneg by lia. split.
  - apply Z.div_pos; lia.
  - apply Z.div_lt_upper_bound; lia.
Qed.

Lemma inside_image_spec (x y : Q) (W H : Z) :
  inside_image x y W H = true <->
  0 <= x /\ 0 <= y /\ x < inject_Z W /\ y < inject_Z H.
Proof.
  unfold inside_image.
  rewrite !andb_true_iff, !Qgeb_ge, !Qltb_lt. tauto.
Qed.

Lemma inside_image_pixel (x y : Q) (W H : Z) :
  inside_image x y W H = true ->
  (0 <= py_int x < W)%Z /\ (0 <= py_int y < H)%Z.
Proof.
  intro Hin. apply inside_image_spec in Hin.
  destruct Hin as (Hx & Hy & HW & HH).
  split; now apply py_int_bounds.
Qed.

Lemma py_getitem_in {A} (l : list A) (i : Z) (d : A) :
  (0 <= i < Z.of_nat (length l))%Z ->
  py_getitem l i = Ok (nth (Z.to_nat i) l d).
Proof.
  intros Hi. unfold py_getitem.
  destruct (Z.ltb_spec i 0); [lia|].
  destruct (Z.leb_spec 0 i); [|lia].
  destruct (Z.ltb_spec i (Z.of_nat (length l))); [|lia].
  simpl.
  destruct (nth_error l (Z.to_nat i)) as [a|] eqn:Hnth.
  - f_equal. symmetry. now apply nth_error_nth.
  - apply nth_error_None in Hnth. lia.
Qed.

Lemma have_same_depth_reads x y z depth thr :
  fst (have_same_depth x y z depth thr) = [(py_int y, py_int x)].
Proof.
  unfold have_same_depth, tell_read, lift, ret, bind.
  destruct (py_getitem depth (py_int y)) as [row|e]; [|reflexivity].
  destruct (py_getitem row (py_int x)); reflexivity.
Qed.

Lemma have_same_depth_inside x y z depth thr W H :
  has_shape depth W H ->
  inside_image x y W H = true ->
  have_same_depth x y z depth thr
  = ([(py_int y, py_int x)], Ok (same_depth depth thr (x, y, z))).
Proof.
  intros [Hrows Hcols] Hin. apply inside_image_pixel in Hin.
  destruct Hin as [Hx Hy].
  unfold have_same_depth, tell_read, lift, ret, bind.
  rewrite (py_getitem_in depth (py_int y) []) by lia.
  assert (Hrow : Z.of_nat (length (nth (Z.to_nat (py_int y)) depth [])) = W).
  { rewrite Forall_forall in Hcols. apply Hcols. apply nth_In. lia. }
  rewrite (py_getitem_in _ (py_int x) 0) by lia.
  reflexivity.
Qed.

Lemma bind_reads {A B} (P : Z * Z -> Prop) (m : M A) (k : A -> M B) :
  Forall P (fst m) -> (forall a, Forall P (fst (k a))) ->
  Forall P (fst (bind m k)).
Proof.
  destruct m as [l1 [a|e]]; simpl; intros H1 H2; [|assumption].
  specialize (H2 a). destruct (k a) as [l2 r]. simpl in *.
  apply Forall_app. auto.
Qed.

Lemma mapM_reads {A B} (P : Z * Z -> Prop) (f : A -> M B) :
  forall l, (forall a, In a l -> Forall P (fst (f a))) ->
            Forall P (fst (mapM f l)).
Proof.
  induction l as [|a l IH]; intros Hall; simpl.
  - constructor.
  - apply bind_reads; [apply Hall; now left|].
    intros b. apply bind_reads; [apply IH; intros; apply Hall; now right|].
    intros bs. constructor.
Qed.

Lemma mapM_have_same_depth depth thr W H :
  has_shape depth W H ->
  forall pts,
    (forall p, In p pts -> inside_image (cx p) (cy p) W H = true) ->
    mapM (fun p => have_same_depth (cx p) (cy p) (cz p) depth thr) pts
    = (map (fun p => (py_int (cy p), py_int (cx p))) pts,
       Ok (map (same_depth depth thr) pts)).
Proof.
  intros Hshape. induction pts as [|p pts IH]; intros Hall; simpl.
  - reflexivity.
  - rewrite (have_same_depth_inside _ _ _ _ _ W H Hshape)
      by (apply Hall; now left).
    rewrite IH by (intros; apply Hall; now right).
    destruct p as [[x y] z]. unfold bind, ret. simpl.
    now rewrite app_nil_r.
Qed.

Lemma ret_reads {A} (P : Z * Z -> Prop) (a : A) : Forall P (fst (ret a)).
Proof. constructor. Qed.

(** With a depth array of the shape of the image the outcome is decided
    by the gate on the middle point, else by the vote of the sampling
    points, then by the filter on small boxes. *)
Lemma get_2d_bbox_outcome depth veh obj bb rgb K W H mt nt corners ends :
  has_shape depth W H ->
  map_ground_bounding_box_to_2D veh obj bb rgb K (W, H) = Ok corners ->
  length corners = 8%nat ->
  get_bounding_box_from_corners corners = Some ends ->
  snd (get_2d_bbox_from_3d_box depth veh obj bb rgb K (W, H) mt nt)
  = Ok (if midpoint_gate depth (W, H) mt
             (fst (get_bounding_box_sampling_points ends))
           || sample_vote depth (W, H) nt
                (snd (get_bounding_box_sampling_points ends))
        then if big_enough (W, H) (select_max_bbox ends)
             then Some (select_max_bbox ends) else None
        else None).
Proof.
  intros Hshape Hc Hlen Hends. unfold get_2d_bbox_from_3d_box.
  rewrite Hc, bind_lift_Ok, Hlen, Hends. simpl Nat.eqb. cbv iota.
  destruct (get_bounding_box_sampling_points ends) as [mp pts].
  generalize (big_enough (W, H) (select_max_bbox ends)).
  generalize (select_max_bbox ends). intros bx big.
  unfold midpoint_gate, sample_vote. simpl fst. simpl snd.
  destruct (inside_image (cx mp) (cy mp) W H) eqn:Hmp.
  - rewrite (have_same_depth_inside _ _ _ _ _ W H Hshape Hmp).
    destruct mp as [[mx my] mz]. unfold cx, cy, cz. simpl fst. simpl snd.
    simpl andb.
    destruct (same_depth depth mt (mx, my, mz)).
    + simpl. now destruct big.
    + rewrite (mapM_have_same_depth depth nt W H Hshape)
        by (intros p Hp; apply filter_In in Hp; tauto).
      simpl.
      destruct (enough_same_depth _); [|reflexivity].
      now destruct big.
  - rewrite (mapM_have_same_depth depth nt W H Hshape)
      by (intros p Hp; apply filter_In in Hp; tauto).
    simpl.
    destruct (enough_same_depth _); [|reflexivity].
    now destruct big.
Qed.

Lemma small_box_rejected depth veh obj bb rgb K W H mt nt corners ends :
  has_shape depth W H ->
  map_ground_bounding_box_to_2D veh obj bb rgb K (W, H) = Ok corners ->
  length corners = 8%nat ->
  get_bounding_box_from_corners corners = Some ends ->
  big_enough (W, H) (select_max_bbox ends) = false ->
  snd (get_2d_bbox_from_3d_box depth veh obj bb rgb K (W, H) mt nt) = Ok None.
Proof.
  intros Hshape Hc Hlen Hends Hsmall.
  rewrite (get_2d_bbox_outcome depth veh obj bb rgb K W H mt nt corners ends)
    by assumption.
  rewrite Hsmall. now destruct (_ || _).
Qed.

Lemma depth_buffer_shape dflt special :
  has_shape (depth_buffer dflt special) 100 100.
Proof.
  unfold has_shape, depth_buffer. split.
  - now rewrite length_map, length_seq.
  - apply Forall_forall. intros row Hrow. apply in_map_iff in Hrow.
    destruct Hrow as (y & <- & _). now rewrite length_map, length_seq.
Qed.

Lemma returned_box_not_small_witness :
  get_2d_bbox_from_3d_box (depth_buffer (9 # 1000) []) origin origin
                          (unit_cube_at 0 0 10) origin camera99
                          (100, 100)%Z (1 # 10) 1
  = ([(50, 50)%Z], Ok (Some (39, 61, 39, 61)%Z)) /\
  inject_Z 100 * (1 # 100) < inject_Z (61 - 39) /\
  inject_Z 100 * (2 # 100) < inject_Z (61 - 39) /\
  inject_Z (100 * 100) * (4 # 10000) < inject_Z ((61 - 39) * (61 - 39)).
Proof.
  assert (Hrun : get_2d_bbox_from_3d_box (depth_buffer (9 # 1000) []) origin
                   origin (unit_cube_at 0 0 10) origin camera99
                   (100, 100)%Z (1 # 10) 1
                 = ([(50, 50)%Z], Ok (Some (39, 61, 39, 61)%Z)))
    by (vm_compute; reflexivity).
  split; [exact Hrun|].
  exact (proj1 (returned_box_not_small (depth_buffer (9 # 1000) []) origin
                  origin (unit_cube_at 0 0 10) origin camera99 100 100
                  (1 # 10) 1)
               _ _ _ _ _ Hrun).
Defined.

(** ** The vote of the sampling points *)

Lemma sampling_points_shape (ends : corner * corner) :
  snd (get_bounding_box_sampling_points ends)
  = fst (get_bounding_box_sampling_points ends)
    :: offset_points (fst (get_bounding_box_sampling_points ends)).
Proof. destruct ends as [a b]. reflexivity. Qed.

Lemma sample_vote_spec depth W H nt samples :
  sample_vote depth (W, H) nt samples = true <->
  let inside := filter (fun p => inside_image (cx p) (cy p) W H) samples in
  (0 < length inside)%nat /\
  (4 # 10) * inject_Z (Z.of_nat (length inside))
  <= inject_Z (Z.of_nat (count_true (map (same_depth depth nt) inside))).
Proof.
  unfold sample_vote, enough_same_depth. simpl fst. simpl snd.
  rewrite andb_true_iff, Qgeb_ge, Nat.ltb_lt, length_map. tauto.
Qed.

(** C8, amended.  When the gate on the middle point fails, the points
    put to the vote are the middle point itself and its six offsets;
    those inside the image must be at least one and at least 0.4 of them
    must match the depth buffer within [neighbor_threshold]; the box is
    then returned if it also passes the filter on small boxes. *)
Theorem failed_gate_vote
    (depth : mat) (veh obj : Transform) (bb : BoundingBox) (rgb : Transform)
    (K : mat) (W H : Z) (mt nt : Q)
    (corners : list corner) (ends : corner * corner) :
  has_shape depth W H ->
  map_ground_bounding_box_to_2D veh obj bb rgb K (W, H) = Ok corners ->
  length corners = 8%nat ->
  get_bounding_box_from_corners corners = Some ends ->
  let middle_point := fst (get_bounding_box_sampling_points ends) in
  midpoint_gate depth (W, H) mt middle_point = false ->
  snd (get_2d_bbox_from_3d_box depth veh obj bb rgb K (W, H) mt nt)
  = Ok (if sample_vote depth (W, H) nt
             (middle_point :: offset_points middle_point)
        then if big_enough (W, H) (select_max_bbox ends)
             then Some (select_max_bbox ends) else None
        else None).
Proof.
  intros Hshape Hc Hlen Hends middle_point Hgate.
  rewrite (get_2d_bbox_outcome depth veh obj bb rgb K W H mt nt corners ends)
    by assumption.
  fold middle_point. rewrite Hgate, sampling_points_shape. reflexivity.
Qed.

Lemma failed_gate_vote_witness :
  exists corners ends,
    map_ground_bounding_box_to_2D origin origin (unit_cube_at 0 0 10) origin
                                  camera99 (100, 100)%Z = Ok corners /\
    get_bounding_box_from_corners corners = Some ends /\
    midpoint_gate split_vote_depth (100, 100)%Z (1 # 10)
                  (fst (get_bounding_box_sampling_points ends)) = false /\
    snd (get_2d_bbox_from_3d_box split_vote_depth origin origin
           (unit_cube_at 0 0 10) origin camera99 (100, 100)%Z (1 # 10) 1)
    = Ok (if sample_vote split_vote_depth (100, 100)%Z 1
               (fst (get_bounding_box_sampling_points ends)
                :: offset_points (fst (get_bounding_box_sampling_points ends)))
          then if big_enough (100, 100)%Z (select_max_bbox ends)
               then Some (select_max_bbox ends) else None
          else None).
Proof.
  eexists. eexists.
  split; [vm_compute; reflexivity|].
  split; [vm_compute; reflexivity|].
  split; [vm_compute; reflexivity|].
  eapply (failed_gate_vote split_vote_depth origin origin (unit_cube_at 0 0 10)
            origin camera99 100 100 (1 # 10) 1).
  - apply depth_buffer_shape.
  - vm_compute; reflexivity.
  - reflexivity.
  - vm_compute; reflexivity.
  - vm_compute; reflexivity.
Defined.

(** C8 as stated fails: with [split_vote_depth] the middle point fails
    its gate, only 2 of the 6 offset points match the buffer, fewer than
    0.4 * 6, and yet the box is returned, because the middle point
    itself is put to the vote and matches as a third of 7. *)
Lemma six_offsets_do_not_decide :
  exists corners ends,
    map_ground_bounding_box_to_2D origin origin (unit_cube_at 0 0 10) origin
                                  camera99 (100, 100)%Z = Ok corners /\
    length corners = 8%nat /\
    get_bounding_box_from_corners corners = Some ends /\
    midpoint_gate split_vote_depth (100, 100)%Z (1 # 10)
                  (fst (get_bounding_box_sampling_points ends)) = false /\
    sample_vote split_vote_depth (100, 100)%Z 1
      (offset_points (fst (get_bounding_box_sampling_points ends))) = false /\
    snd (get_2d_bbox_from_3d_box split_vote_depth origin origin
           (unit_cube_at 0 0 10) origin camera99 (100, 100)%Z (1 # 10) 1)
    = Ok (Some (39, 61, 39, 61)%Z).
Proof.
  eexists. eexists.
  split; [vm_compute; reflexivity|].
  split; [reflexivity|].
  split; [vm_compute; reflexivity|].
  repeat split; vm_compute; reflexivity.
Qed.

(** ** Every read lies in the image *)

Lemma project_vertex_raises W H ext K v e :
  project_vertex W H ext K v = Raise e -> e = LinAlgError.
Proof.
  unfold project_vertex, inv.
  destruct (Qeq_bool (det (matrix ext)) 0); simpl; congruence.
Qed.

Lemma map_ground_loop_raises W H ext K e :
  forall bbox coords,
    map_ground_loop W H ext K bbox coords = Raise e -> e = LinAlgError.
Proof.
  induction bbox as [|v bbox IH]; intros coords; simpl.
  - discriminate.
  - destruct (project_vertex W H ext K v) as [loc|e'] eqn:Hp; simpl.
    + apply IH.
    + intros He. injection He as <-. eapply project_vertex_raises, Hp.
Qed.

Lemma have_same_depth_guarded (P : Z * Z -> Prop) x y z depth thr W H :
  (forall r c, (0 <= c < W)%Z /\ (0 <= r < H)%Z -> P (r, c)) ->
  inside_image x y W H = true ->
  Forall P (fst (have_same_depth x y z depth thr)).
Proof.
  intros HP Hin. rewrite have_same_depth_reads.
  constructor; [|constructor]. apply HP. now apply inside_image_pixel.
Qed.

(** C10.  Every subscript [depth_array[r][c]] used has 0 <= c < width
    and 0 <= r < height, and on a depth array of height rows and width
    columns no read raises [IndexError]. *)
Theorem depth_reads_inside_image
    (depth : mat) (veh obj : Transform) (bb : BoundingBox) (rgb : Transform)
    (K : mat) (W H : Z) (mt nt : Q) :
  Forall (fun rc => (0 <= snd rc < W)%Z /\ (0 <= fst rc < H)%Z)
         (fst (get_2d_bbox_from_3d_box depth veh obj bb rgb K (W, H) mt nt)) /\
  (has_shape depth W H ->
   snd (get_2d_bbox_from_3d_box depth veh obj bb rgb K (W, H) mt nt)
   <> Raise IndexError).
Proof.
  split.
  - unfold get_2d_bbox_from_3d_box.
    apply bind_reads; [constructor|]. intros corners.
    destruct (length corners =? 8)%nat; [|apply ret_reads].
    destruct (get_bounding_box_from_corners corners) as [ends|];
      [|apply ret_reads].
    destruct (get_bounding_box_sampling_points ends) as [mp pts].
    generalize (big_enough (W, H) (select_max_bbox ends)).
    generalize (select_max_bbox ends). intros bx big.
    simpl fst. simpl snd.
    apply bind_reads.
    + destruct (inside_image (cx mp) (cy mp) W H) eqn:Hmp; [|apply ret_reads].
      apply (have_same_depth_guarded _ _ _ _ _ _ W H); auto.
    + intros [|].
      * destruct big; apply ret_reads.
      * apply bind_reads.
        -- apply mapM_reads. intros p Hp. apply filter_In in Hp.
           apply (have_same_depth_guarded _ _ _ _ _ _ W H); tauto.
        -- intros sdp. destruct (enough_same_depth sdp); [|apply ret_reads].
           destruct big; apply ret_reads.
  - intros Hshape.
    destruct (map_ground_bounding_box_to_2D veh obj bb rgb K (W, H))
      as [corners|e] eqn:Hc.
    + destruct (Nat.eq_dec (length corners) 8) as [Hlen|Hlen].
      * destruct (get_bounding_box_from_corners corners) as [ends|] eqn:Hends.
        -- rewrite (get_2d_bbox_outcome depth veh obj bb rgb K W H mt nt
                      corners ends) by assumption.
           discriminate.
        -- unfold get_2d_bbox_from_3d_box.
           rewrite Hc, bind_lift_Ok, Hlen, Hends. discriminate.
      * rewrite (not_eight_no_box depth veh obj bb rgb K (W, H) mt nt corners)
          by assumption.
        discriminate.
    + unfold get_2d_bbox_from_3d_box. rewrite Hc, bind_lift_Raise. simpl.
      unfold map_ground_bounding_box_to_2D in Hc.
      apply map_ground_loop_raises in Hc. subst e. discriminate.
Qed.

Lemma depth_reads_inside_image_witness :
  has_shape split_vote_depth 100 100 /\
  Forall (fun rc => (0 <= snd rc < 100)%Z /\ (0 <= fst rc < 100)%Z)
         (fst (get_2d_bbox_from_3d_box split_vote_depth origin origin
                 (unit_cube_at 0 0 10) origin camera99 (100, 100)%Z
                 (1 # 10) 1)) /\
  snd (get_2d_bbox_from_3d_box split_vote_depth origin origin
         (unit_cube_at 0 0 10) origin camera99 (100, 100)%Z (1 # 10) 1)
  <> Raise IndexError.
Proof.
  pose proof (depth_reads_inside_image split_vote_depth origin origin
                (unit_cube_at 0 0 10) origin camera99 100 100 (1 # 10) 1)
    as [Hreads Hok].
  pose proof (depth_buffer_shape 1 [ (50, 50, 95 # 10000); (50, 52, 9 # 1000);
                                     (51, 51, 9 # 1000) ]%nat) as Hshape.
  split; [exact Hshape|].
  split; [exact Hreads | exact (Hok Hshape)].
Defined.

End ProjectionFacts.

(** * Properties of the controller *)

Module ControlFacts.

Import Control.
Import Lra.
Local Open Scope R_scope.

(** ** Finite floats *)

Lemma fsqrt_fin (x : R) : 0 <= x -> fsqrt (Fin x) = Fin (sqrt x).
Proof. intro Hx. unfold fsqrt. destruct (Rlt_dec x 0); [lra | reflexivity]. Qed.

Lemma fdiv_fin (x y : R) : y <> 0 -> fdiv (Fin x) (Fin y) = Fin (x / y).
Proof.
  intro Hy. unfold fdiv. destruct (Req_dec_T y 0); [contradiction | reflexivity].
Qed.

Lemma py_min_fin (a b : R) : py_min (Fin a) (Fin b) = Fin (Rmin a b).
Proof.
  unfold py_min, fltb, Rmin.
  destruct (Rlt_dec b a), (Rle_dec a b); try reflexivity; f_equal; lra.
Qed.

Lemma py_max_fin (a b : R) : py_max (Fin a) (Fin b) = Fin (Rmax a b).
Proof.
  unfold py_max, fgtb, fltb, Rmax.
  destruct (Rlt_dec a b), (Rle_dec a b); try reflexivity; f_equal; lra.
Qed.

Lemma fgtb_fin (a b : R) :
  fgtb (Fin a) (Fin b) = if Rlt_dec b a then true else false.
Proof. reflexivity. Qed.

(** ** Throttle and brake *)

Section Longitudinal.

Variable PID : Type.
Variable pid_set_target : PID -> npfloat -> PID.
Variable pid_call : PID -> npfloat -> npfloat * PID.

Lemma get_throttle_brake_finite (self : PIDControlOperator PID)
    (target : npfloat) (d tmax bs g : R) :
  default_throttle (_flags self) = Fin d ->
  throttle_max (_flags self) = Fin tmax ->
  brake_strength (_flags self) = Fin bs ->
  fst (pid_call (pid_set_target (_pid self) target) (_latest_speed self))
  = Fin g ->
  snd (_get_throttle_brake PID pid_set_target pid_call self target)
  = (Fin (throttle_law d tmax g), Fin (brake_law bs g)).
Proof.
  intros Hd Ht Hb Hg. unfold _get_throttle_brake.
  destruct (pid_call (pid_set_target (_pid self) target) (_latest_speed self))
    as [gain pid'].
  simpl in Hg. subst gain. rewrite Hd, Ht, Hb. simpl snd.
  unfold throttle_law, brake_law, clamp.
  f_equal.
  - simpl fsub. rewrite py_max_fin, py_min_fin. reflexivity.
  - destruct (Rlt_dec (5 / 10) g); [|reflexivity].
    now rewrite py_min_fin.
Qed.

End Longitudinal.

(** ** Steering *)

Lemma norm_fin (x y z : R) :
  np_linalg_norm (Fin x, Fin y, Fin z) = Fin (sqrt (x * x + y * y + z * z)).
Proof.
  unfold np_linalg_norm, np_dot, fadd, fmul. apply fsqrt_fin. nra.
Qed.

Lemma norm2_pos (u : R * R) : fst u <> 0 \/ snd u <> 0 -> 0 < norm2 u.
Proof.
  intros Hu. unfold norm2. apply sqrt_lt_R0.
  destruct Hu as [Hu|Hu]; nra.
Qed.

Lemma normalize_planar (x y : R) :
  x <> 0 \/ y <> 0 ->
  vdiv (Fin x, Fin y, Fin 0) (np_linalg_norm (Fin x, Fin y, Fin 0))
  = (Fin (fst (normalize2 (x, y))), Fin (snd (normalize2 (x, y))), Fin 0).
Proof.
  intros Hxy. pose proof (norm2_pos (x, y) Hxy) as Hpos.
  rewrite norm_fin.
  replace (x * x + y * y + 0 * 0) with (x * x + y * y) by ring.
  change (sqrt (x * x + y * y)) with (norm2 (x, y)).
  unfold vdiv. rewrite !fdiv_fin by lra.
  unfold normalize2. simpl fst. simpl snd.
  replace (0 / norm2 (x, y)) with 0 by (unfold Rdiv; ring).
  reflexivity.
Qed.

Lemma normalize2_unit (u : R * R) :
  fst u <> 0 \/ snd u <> 0 ->
  fst (normalize2 u) * fst (normalize2 u)
  + snd (normalize2 u) * snd (normalize2 u) = 1.
Proof.
  intros Hu. pose proof (norm2_pos u Hu) as Hpos.
  assert (Hsq : norm2 u * norm2 u = fst u * fst u + snd u * snd u).
  { unfold norm2. apply sqrt_sqrt. nra. }
  unfold normalize2. simpl fst. simpl snd.
  replace (fst u / norm2 u * (fst u / norm2 u)
           + snd u / norm2 u * (snd u / norm2 u))
    with ((fst u * fst u + snd u * snd u) / (norm2 u * norm2 u))
    by (field; lra).
  rewrite <- Hsq. field. lra.
Qed.

Lemma unit_dot_bounds (u v : R * R) :
  fst u * fst u + snd u * snd u = 1 ->
  fst v * fst v + snd v * snd v = 1 ->
  -1 <= dot2 u v <= 1.
Proof.
  intros Hu Hv. unfold dot2.
  pose proof (Rle_0_sqr (fst u - fst v)) as H1.
  pose proof (Rle_0_sqr (snd u - snd v)) as H2.
  pose proof (Rle_0_sqr (fst u + fst v)) as H3.
  pose proof (Rle_0_sqr (snd u + snd v)) as H4.
  unfold Rsqr in H1, H2, H3, H4. lra.
Qed.

Lemma cos_sin_not_both_zero (t : R) : cos t <> 0 \/ sin t <> 0.
Proof.
  pose proof (sin2_cos2 t) as H. unfold Rsqr in H.
  destruct (Req_dec_T (cos t) 0) as [Hc|Hc]; [|now left].
  right. intro Hs. rewrite Hc, Hs in H. lra.
Qed.

Section Steering.

Variable PID : Type.
Variable self : PIDControlOperator PID.
Variables vehicle waypoint : Transform.
Variables yw vx vy wx wy : R.

Hypothesis Hvehicle : _vehicle_transform self = Some vehicle.
Hypothesis Hyaw : yaw (rotation vehicle) = Fin yw.
Hypothesis Hvx : loc_x (location vehicle) = Fin vx.
Hypothesis Hvy : loc_y (location vehicle) = Fin vy.
Hypothesis Hwx : loc_x (location waypoint) = Fin wx.
Hypothesis Hwy : loc_y (location waypoint) = Fin wy.

(** The vehicle vector after normalization. *)
Lemma heading_vector :
  vdiv (Fin (cos (yw * (PI / 180))), Fin (sin (yw * (PI / 180))), Fin 0)
       (np_linalg_norm
          (Fin (cos (yw * (PI / 180))), Fin (sin (yw * (PI / 180))), Fin 0))
  = (Fin (fst (heading yw)), Fin (snd (heading yw)), Fin 0).
Proof. apply normalize_planar, cos_sin_not_both_zero. Qed.

Lemma waypoint_vector :
  vsub (loc_x (location waypoint), loc_y (location waypoint), Fin 0)
       (loc_x (location vehicle), loc_y (location vehicle), Fin 0)
  = (Fin (wx - vx), Fin (wy - vy), Fin 0).
Proof.
  rewrite Hvx, Hvy, Hwx, Hwy. unfold vsub, fsub, fneg, fadd.
  replace (0 + - 0) with 0 by ring. reflexivity.
Qed.

(** A waypoint away from the vehicle, in exact arithmetic: the steering
    law on finite values. *)
Lemma get_steering_finite (g : R) :
  steer_gain (_flags self) = Fin g ->
  wx <> vx \/ wy <> vy ->
  _get_steering self waypoint = Ok (Fin (steering_law g yw vx vy wx wy)).
Proof.
  intros Hg Hfar. unfold _get_steering.
  rewrite Hvehicle, waypoint_vector, Hyaw, Hg.
  unfold math_radians, fmul, math_cos, math_sin, rbind.
  rewrite heading_vector, normalize_planar by lra.
  fold (to_waypoint vx vy wx wy).
  unfold steering_law. cbv zeta.
  set (h := heading yw). set (w := to_waypoint vx vy wx wy).
  assert (Hdot : np_dot (Fin (fst h), Fin (snd h), Fin 0)
                        (Fin (fst w), Fin (snd w), Fin 0)
                 = Fin (dot2 h w)).
  { unfold np_dot, fadd, fmul, dot2. f_equal. ring. }
  rewrite Hdot.
  assert (Hbound : -1 <= dot2 h w <= 1).
  { apply unit_dot_bounds.
    - apply normalize2_unit. apply cos_sin_not_both_zero.
    - apply normalize2_unit. simpl. lra. }
  unfold math_acos.
  destruct (Rle_dec (-1) (dot2 h w)); [|lra].
  destruct (Rle_dec (dot2 h w) 1); [|lra].
  assert (Hcross : np_cross_2 (Fin (fst h), Fin (snd h), Fin 0)
                              (Fin (fst w), Fin (snd w), Fin 0)
                   = Fin (cross_z h w)).
  { reflexivity. }
  rewrite Hcross. unfold fltb.
  destruct (Rlt_dec (cross_z h w) 0).
  - replace (acos (dot2 h w) * -1) with (- acos (dot2 h w)) by ring.
    rewrite fgtb_fin.
    destruct (Rlt_dec 0 (g * - acos (dot2 h w)));
      [now rewrite py_min_fin | now rewrite py_max_fin].
  - rewrite fgtb_fin.
    destruct (Rlt_dec 0 (g * acos (dot2 h w)));
      [now rewrite py_min_fin | now rewrite py_max_fin].
Qed.

(** A waypoint at the vehicle position: 0 / 0 makes the waypoint vector
    NaN, which reaches the result through every later step. *)
Lemma get_steering_coincident :
  wx = vx -> wy = vy -> _get_steering self waypoint = Ok NaN.
Proof.
  intros Hx Hy. unfold _get_steering.
  rewrite Hvehicle, waypoint_vector, Hyaw.
  change (math_radians (Fin yw)) with (Fin (yw * (PI / 180))).
  unfold math_cos, math_sin, rbind.
  rewrite heading_vector, norm_fin.
  replace ((wx - vx) * (wx - vx) + (wy - vy) * (wy - vy) + 0 * 0) with 0
    by (subst; ring).
  replace (wx - vx) with 0 by lra. replace (wy - vy) with 0 by lra.
  rewrite sqrt_0.
  assert (Hnan : fdiv (Fin 0) (Fin 0) = NaN).
  { unfold fdiv, inf_of_sign. destruct (Req_dec_T 0 0); [|lra].
    destruct (Rlt_dec 0 0); [lra | reflexivity]. }
  unfold vdiv. rewrite Hnan.
  unfold np_dot, np_cross_2, fmul, fadd, fsub, fneg, math_acos, fltb.
  destruct (steer_gain (_flags self)); reflexivity.
Qed.

End Steering.

(** C9, a defect of the code.  For a waypoint at the vehicle position
    the steering computation raises nothing: the division of the zero
    vector by its zero norm yields NaN and NaN is returned, against the
    docstring, which promises a value in the range [-1, 1]. *)
Theorem coincident_waypoint_steers_nan
    (PID : Type) (self : PIDControlOperator PID)
    (vehicle waypoint : Transform) (yw vx vy : R) :
  _vehicle_transform self = Some vehicle ->
  yaw (rotation vehicle) = Fin yw ->
  loc_x (location vehicle) = Fin vx ->
  loc_y (location vehicle) = Fin vy ->
  loc_x (location waypoint) = Fin vx ->
  loc_y (location waypoint) = Fin vy ->
  _get_steering self waypoint = Ok NaN.
Proof.
  intros Hv Hyaw Hvx Hvy Hwx Hwy.
  now apply (get_steering_coincident PID self vehicle waypoint yw vx vy vx vy).
Qed.

Lemma coincident_waypoint_steers_nan_witness :
  _get_steering (driving (pose 3 4 0) None) (pose 3 4 0) = Ok NaN.
Proof.
  exact (coincident_waypoint_steers_nan npfloat (driving (pose 3 4 0) None)
           (pose 3 4 0) (pose 3 4 0) 0 3 4
           eq_refl eq_refl eq_refl eq_refl eq_refl eq_refl).
Defined.

(** The failing input of C9: with the vehicle at (3, 4), heading 90
    degrees, and the waypoint at (3, 4) the computation returns NaN and
    raises no exception. *)
Lemma coincident_waypoint_does_not_raise :
  _get_steering (driving (pose 3 4 90) None) (pose 3 4 0) = Ok NaN /\
  forall e, _get_steering (driving (pose 3 4 90) None) (pose 3 4 0) <> Raise e.
Proof.
  assert (H : _get_steering (driving (pose 3 4 90) None) (pose 3 4 0) = Ok NaN).
  { now apply (get_steering_coincident npfloat (driving (pose 3 4 90) None)
                 (pose 3 4 90) (pose 3 4 0) 90 3 4 3 4). }
  split; [exact H|]. intros e. rewrite H. discriminate.
Qed.

(** ** The callback *)

Section Callback.

Variable PID : Type.
Variable pid_set_target : PID -> npfloat -> PID.
Variable pid_call : PID -> npfloat -> npfloat * PID.

(** C4.  With a waypoint message present, a sent command carries
    throttle = clamp(default_throttle - 1.3 * gain, 0, throttle_max) and
    brake = min(0.35 * gain * brake_strength, 1) if gain > 0.5, else 0,
    where gain is the output of the PID controller for the target speed
    of the message and the speed just measured. *)
Theorem throttle_brake_follow_law
    (self : PIDControlOperator PID) (msg : CanBusMessage)
    (wmsg : WaypointsMessage) (cmd : ControlMessage) (d tmax bs g : R) :
  _last_waypoint_msg self = Some wmsg ->
  default_throttle (_flags self) = Fin d ->
  throttle_max (_flags self) = Fin tmax ->
  brake_strength (_flags self) = Fin bs ->
  fst (pid_call (pid_set_target (_pid self) (target_speed wmsg))
                (forward_speed (data msg))) = Fin g ->
  snd (on_can_bus_update PID pid_set_target pid_call self msg) = Ok cmd ->
  throttle cmd = Fin (throttle_law d tmax g) /\
  brake cmd = Fin (brake_law bs g).
Proof.
  intros Hw Hd Ht Hb Hg Hsent. unfold on_can_bus_update in Hsent.
  simpl _last_waypoint_msg in Hsent. rewrite Hw in Hsent.
  match type of Hsent with
  | context [_get_throttle_brake _ _ _ ?s ?t] =>
      pose proof (get_throttle_brake_finite PID pid_set_target pid_call
                    s t d tmax bs g Hd Ht Hb Hg) as Htb;
      destruct (_get_throttle_brake PID pid_set_target pid_call s t)
        as [self' [th br]]
  end.
  simpl in Htb. injection Htb as -> ->.
  destruct (waypoints wmsg) as [|waypoint rest]; [discriminate|].
  simpl in Hsent.
  destruct (_get_steering self' waypoint) as [st|e]; [|discriminate].
  simpl in Hsent. injection Hsent as <-. split; reflexivity.
Qed.

(** Without a waypoint message a can-bus update sends the neutral
    command and leaves the operator without one. *)
Lemma can_bus_without_plan (self : PIDControlOperator PID)
    (msg : CanBusMessage) :
  _last_waypoint_msg self = None ->
  snd (on_can_bus_update PID pid_set_target pid_call self msg)
  = Ok (neutral (timestamp msg)) /\
  _last_waypoint_msg
    (fst (on_can_bus_update PID pid_set_target pid_call self msg)) = None.
Proof.
  intros Hnone. unfold on_can_bus_update.
  simpl _last_waypoint_msg. rewrite Hnone. split; reflexivity.
Qed.

(** C6.  From construction on, as long as only can-bus updates arrive,
    each of them sends the command steer = 0, throttle = 0, brake = 0
    with its time stamp, and none raises. *)
Theorem neutral_until_first_plan
    (flags : Flags) (pid : PID) (msgs : list CanBusMessage) :
  snd (run PID pid_set_target pid_call (init flags pid)
           (map CanBusEvent msgs))
  = map (fun msg => Ok {| steer := Fin 0; throttle := Fin 0; brake := Fin 0;
                          hand_brake := false; reverse := false;
                          ctl_timestamp := timestamp msg |}) msgs.
Proof.
  assert (Hnone : _last_waypoint_msg (init flags pid) = None) by reflexivity.
  revert Hnone. generalize (init flags pid).
  induction msgs as [|msg msgs IH]; intros self Hnone; simpl.
  - reflexivity.
  - destruct (can_bus_without_plan self msg Hnone) as [Hout Hstate].
    destruct (on_can_bus_update PID pid_set_target pid_call self msg)
      as [self' out].
    simpl in Hout, Hstate. subst out.
    specialize (IH self' Hstate).
    destruct (run PID pid_set_target pid_call self' (map CanBusEvent msgs))
      as [self'' outs].
    simpl in IH. subst outs. reflexivity.
Qed.

End Callback.

Lemma throttle_brake_follow_law_witness :
  exists cmd,
    snd (on_can_bus_update npfloat p_set_target p_call
           (driving (pose 0 0 0) (Some plan0)) (can_bus 12 0 0 0 7)) = Ok cmd /\
    throttle cmd = Fin (throttle_law 1 (1 / 2) (12 - 10)) /\
    brake cmd = Fin (brake_law 1 (12 - 10)).
Proof.
  assert (Hsteer : _get_steering (driving (pose 0 0 0) (Some plan0))
                                 (pose 10 0 0)
                   = Ok (Fin (steering_law 1 0 0 0 10 0))).
  { apply (get_steering_finite npfloat _ (pose 0 0 0)); try reflexivity.
    left. lra. }
  eexists. split.
  - unfold on_can_bus_update. simpl.
    unfold _get_steering in Hsteer. simpl in Hsteer.
    unfold _get_steering. simpl. rewrite Hsteer. reflexivity.
  - eapply (throttle_brake_follow_law npfloat p_set_target p_call
              (driving (pose 0 0 0) (Some plan0)) (can_bus 12 0 0 0 7)
              plan0 _ 1 (1 / 2) 1 (12 - 10));
      try reflexivity.
    unfold on_can_bus_update. simpl.
    unfold _get_steering in Hsteer. simpl in Hsteer.
    unfold _get_steering. simpl. rewrite Hsteer. reflexivity.
Defined.

End ControlFacts.

(** * Further properties of the projection *)

Module ProjectionExtra.

Import Projection.
Import ProjectionFacts.
Import Lqa.
Local Open Scope Q_scope.

(** ** Points through a transform *)

Lemma nth_map_lt {A B} (f : A -> B) (l : list A) (j : nat) (d : A) (d' : B) :
  (j < length l)%nat -> nth j (map f l) d' = f (nth j l d).
Proof.
  intro Hj. rewrite (nth_indep _ d' (f d)) by now rewrite length_map.
  apply map_nth.
Qed.

Lemma map_nth_seq {A B} (f : A -> B) (l : list A) (d : A) :
  map (fun j => f (nth j l d)) (seq 0 (length l)) = map f l.
Proof.
  induction l as [|a l IH]; simpl; [reflexivity|].
  f_equal. rewrite <- seq_shift, map_map. exact IH.
Qed.

Lemma nth_repeat_lt {A} (a d : A) (n j : nat) :
  (j < n)%nat -> nth j (repeat a n) d = a.
Proof.
  intro Hj. rewrite (nth_indep _ d a) by now rewrite repeat_length.
  apply nth_repeat.
Qed.

Lemma transform_points_three_columns (m : mat) (pts : mat) :
  m <> [] ->
  ncols pts = 3%nat ->
  transform_points {| matrix := m |} pts = map (transform_point m) pts.
Proof.
  intros Hm Hn. unfold transform_points. simpl matrix.
  assert (Ht : transpose pts = [col pts 0; col pts 1; col pts 2])
    by (unfold transpose; rewrite Hn; reflexivity).
  rewrite Ht. clear Ht.
  set (N := length pts).
  assert (Hc : ncols [col pts 0; col pts 1; col pts 2] = N)
    by (simpl; unfold col; now rewrite length_map).
  rewrite Hc. clear Hc.
  set (P4 := [col pts 0; col pts 1; col pts 2] ++ [repeat 1 N]).
  set (h := fun j => [nth 0 (nth j pts []) 0; nth 1 (nth j pts []) 0;
                      nth 2 (nth j pts []) 0; 1]).
  assert (HP4 : transpose P4 = map h (seq 0 N)).
  { unfold transpose.
    replace (ncols P4) with N by (simpl; unfold col; now rewrite length_map).
    apply map_ext_in. intros j Hj. apply in_seq in Hj.
    unfold P4, col, h. simpl.
    rewrite !(nth_map_lt _ pts j [] 0) by (unfold N in Hj; lia).
    rewrite nth_repeat_lt by lia. reflexivity. }
  unfold dot. rewrite HP4, firstn_map. clear HP4.
  destruct (firstn 3 m) as [|r0 rows] eqn:Hrows.
  { destruct m; [contradiction | discriminate]. }
  unfold transpose.
  replace (ncols (map (fun r => map (fun c => vdot r c) (map h (seq 0 N)))
                      (r0 :: rows)))
    with N by (simpl; now rewrite !length_map, length_seq).
  rewrite <- (map_nth_seq (transform_point m) pts []).
  fold N. apply map_ext_in. intros j Hj. apply in_seq in Hj.
  unfold col, transform_point. rewrite Hrows, map_map.
  apply map_ext. intros r.
  rewrite map_map.
  rewrite (nth_map_lt _ (seq 0 N) j 0%nat 0) by (rewrite length_seq; lia).
  rewrite seq_nth by lia. reflexivity.
Qed.

Lemma transform_points_map (m : mat) (pts : mat) :
  m <> [] ->
  Forall (fun p => length p = 3%nat) pts ->
  transform_points {| matrix := m |} pts = map (transform_point m) pts.
Proof.
  intros Hm Hpts. destruct pts as [|p0 pts'].
  - destruct m as [|r m]; [contradiction|]. reflexivity.
  - apply transform_points_three_columns; [assumption|].
    inversion Hpts; assumption.
Qed.

Lemma transform_point_length (m : mat) (p : list Q) :
  (3 <= length m)%nat -> length (transform_point m p) = 3%nat.
Proof.
  intro Hm. unfold transform_point. rewrite length_map, length_firstn. lia.
Qed.

(** X1.  [transform_points] maps every point on its own: each [x, y, z]
    becomes the first three rows of the matrix applied to [x, y, z, 1],
    in the order of the points. *)
Theorem transform_points_pointwise (t : Transform) (pts : mat) :
  matrix t <> [] ->
  Forall (fun p => length p = 3%nat) pts ->
  transform_points t pts = map (transform_point (matrix t)) pts /\
  length (transform_points t pts) = length pts.
Proof.
  intros Hm Hpts. destruct t as [m]. simpl in *.
  rewrite (transform_points_map m pts Hm Hpts).
  split; [reflexivity | apply length_map].
Qed.

Lemma transform_points_pointwise_witness :
  transform_points quarter_turn [[1; 0; 0]; [0; 1; 7]]
  = map (transform_point (matrix quarter_turn)) [[1; 0; 0]; [0; 1; 7]] /\
  length (transform_points quarter_turn [[1; 0; 0]; [0; 1; 7]]) = 2%nat.
Proof.
  apply (transform_points_pointwise quarter_turn [[1; 0; 0]; [0; 1; 7]]).
  - discriminate.
  - repeat constructor.
Defined.

(** X2.  For matrices with last row 0 0 0 1, transforming by the
    product [a * b] is transforming by [b] and then by [a]. *)
Theorem transform_points_compose (a b : Transform) (pts : mat) :
  affine (matrix a) ->
  affine (matrix b) ->
  Forall (fun p => length p = 3%nat) pts ->
  same_points (transform_points (Transform_mul a b) pts)
              (transform_points a (transform_points b pts)).
Proof.
  destruct a as [ma], b as [mb]. simpl matrix.
  intros (a0 & a1 & a2 & a3 & a4 & a5 & a6 & a7 & a8 & a9 & a10 & a11 & ->)
         (b0 & b1 & b2 & b3 & b4 & b5 & b6 & b7 & b8 & b9 & b10 & b11 & ->)
         Hpts.
  unfold Transform_mul. simpl matrix.
  rewrite (transform_points_map _ pts) by (discriminate || assumption).
  rewrite (transform_points_map _ pts) by (discriminate || assumption).
  rewrite transform_points_map.
  - unfold same_points. induction Hpts as [|p pts Hp Hpts IH]; simpl map.
    + constructor.
    + constructor; [|exact IH].
      destruct p as [|x [|y [|z [|? ?]]]]; try discriminate Hp.
      unfold transform_point, dot, transpose, col, vdot, Qsum. simpl.
      repeat constructor; ring.
  - discriminate.
  - apply Forall_forall. intros q Hq. apply in_map_iff in Hq.
    destruct Hq as (p & <- & _). apply transform_point_length. simpl. lia.
Qed.

Lemma transform_points_compose_witness :
  same_points
    (transform_points (Transform_mul quarter_turn scaling) [[1; 2; 3]])
    (transform_points quarter_turn (transform_points scaling [[1; 2; 3]])).
Proof.
  apply (transform_points_compose quarter_turn scaling [[1; 2; 3]]).
  - unfold affine, quarter_turn. simpl. repeat eexists.
  - unfold affine, scaling. simpl. repeat eexists.
  - repeat constructor.
Defined.

(** ** The eight vertices *)

Lemma world_vertices_map (obj : Transform) (bb : BoundingBox) :
  length (matrix (transform bb)) = 4%nat ->
  length (matrix obj) = 4%nat ->
  world_vertices obj bb
  = map (transform_point (matrix obj))
        (map (transform_point (matrix (transform bb)))
             (bbox_vertices (extent bb))).
Proof.
  intros Hbb Hobj. unfold world_vertices.
  destruct obj as [mo]. destruct bb as [[mb] e]. simpl in *.
  rewrite (transform_points_map mb).
  - rewrite (transform_points_map mo).
    + reflexivity.
    + intro E. rewrite E in Hobj. discriminate.
    + apply Forall_forall. intros q Hq. apply in_map_iff in Hq.
      destruct Hq as (p & <- & _). apply transform_point_length. lia.
  - intro E. rewrite E in Hbb. discriminate.
  - repeat constructor.
Qed.

Lemma world_vertices_length (obj : Transform) (bb : BoundingBox) :
  length (matrix (transform bb)) = 4%nat ->
  length (matrix obj) = 4%nat ->
  length (world_vertices obj bb) = 8%nat.
Proof.
  intros Hbb Hobj. rewrite world_vertices_map by assumption.
  now rewrite !length_map.
Qed.

Lemma filter_all {A} (f : A -> bool) (l : list A) :
  length (filter f l) = length l -> Forall (fun a => f a = true) l.
Proof.
  induction l as [|a l IH]; simpl; intro Hlen; [constructor|].
  pose proof (filter_length_le f l) as Hle.
  destruct (f a) eqn:Hfa; simpl in Hlen.
  - constructor; [assumption|]. apply IH. lia.
  - lia.
Qed.

(** X3.  At most 8 corners are returned, and 8 only when every vertex of
    the box projects to a point that passes the visibility test. *)
Theorem eight_corners_all_visible
    (veh obj : Transform) (bb : BoundingBox) (rgb : Transform) (K : mat)
    (W H : Z) (corners : list corner) :
  length (matrix (transform bb)) = 4%nat ->
  length (matrix obj) = 4%nat ->
  map_ground_bounding_box_to_2D veh obj bb rgb K (W, H) = Ok corners ->
  (length corners <= 8)%nat /\
  (length corners = 8%nat ->
   forall vertex loc,
     In vertex (world_vertices obj bb) ->
     project_vertex W H (Transform_mul veh rgb) K vertex = Ok loc ->
     visible W H loc).
Proof.
  intros Hbb Hobj Hrun. unfold map_ground_bounding_box_to_2D in Hrun.
  apply map_ground_loop_spec in Hrun. destruct Hrun as (locs & Hall & ->).
  simpl app.
  assert (Hlen : length locs = 8%nat).
  { rewrite <- (Forall2_length Hall). now apply world_vertices_length. }
  split.
  - rewrite <- Hlen. apply filter_length_le.
  - intros H8 vertex loc Hin Hp.
    apply Forall2_project_In in Hall. destruct Hall as [Hfwd _].
    specialize (Hfwd vertex loc Hin Hp).
    assert (Hvis : Forall (fun a => visibleb W H a = true) locs)
      by (apply filter_all; congruence).
    rewrite Forall_forall in Hvis. apply visibleb_spec. now apply Hvis.
Qed.

Lemma eight_corners_all_visible_witness :
  exists corners,
    map_ground_bounding_box_to_2D origin origin (unit_cube_at 0 0 10) origin
                                  camera99 (100, 100)%Z = Ok corners /\
    (length corners <= 8)%nat.
Proof.
  eexists. split; [vm_compute; reflexivity|].
  apply (eight_corners_all_visible origin origin (unit_cube_at 0 0 10) origin
           camera99 100 100); reflexivity.
Defined.

(** ** A single location *)

Lemma map_ground_3D_via_project_vertex
    (location : Q * Q * Q) (veh rgb : Transform) (K : mat) (W H : Z) :
  map_ground_3D_transform_to_2D location veh rgb K (W, H)
  = rbind (project_vertex W H (Transform_mul veh rgb) K
                          [cx location; cy location; cz location])
          (fun loc =>
             if Qgtb (cz loc) 0 && Qgeb (cx loc) 0
                && Qltb (cx loc) (inject_Z W)
                && Qgeb (cy loc) 0 && Qltb (cy loc) (inject_Z H)
             then Ok (Some loc) else Ok None).
Proof.
  unfold map_ground_3D_transform_to_2D, project_vertex.
  destruct (inv (matrix (Transform_mul veh rgb))); reflexivity.
Qed.

(** X5.  A point returned by [map_ground_3D_transform_to_2D] is the
    projection [project_vertex] computes for the same location, lies
    strictly inside the image with positive depth, so its pixel is a
    valid subscript, and passes the weaker test of the box corners. *)
Theorem location_in_image
    (location : Q * Q * Q) (veh rgb : Transform) (K : mat) (W H : Z)
    (p : corner) :
  map_ground_3D_transform_to_2D location veh rgb K (W, H) = Ok (Some p) ->
  project_vertex W H (Transform_mul veh rgb) K
                 [cx location; cy location; cz location] = Ok p /\
  0 < cz p /\
  inside_image (cx p) (cy p) W H = true /\
  (0 <= py_int (cx p) < W)%Z /\ (0 <= py_int (cy p) < H)%Z /\
  visible W H p.
Proof.
  rewrite map_ground_3D_via_project_vertex.
  destruct (project_vertex W H (Transform_mul veh rgb) K
              [cx location; cy location; cz location]) as [loc|e];
    [|discriminate].
  unfold rbind.
  destruct (Qgtb (cz loc) 0) eqn:Hz; [|discriminate].
  destruct (Qgeb (cx loc) 0) eqn:Hx0; [|discriminate].
  destruct (Qltb (cx loc) (inject_Z W)) eqn:HxW; [|discriminate].
  destruct (Qgeb (cy loc) 0) eqn:Hy0; [|discriminate].
  destruct (Qltb (cy loc) (inject_Z H)) eqn:HyH; [|discriminate].
  simpl. intro Heq. injection Heq as <-.
  apply Qgtb_gt in Hz. apply Qgeb_ge in Hx0, Hy0. apply Qltb_lt in HxW, HyH.
  assert (Hin : inside_image (cx loc) (cy loc) W H = true)
    by (apply inside_image_spec; auto).
  split; [reflexivity|]. split; [assumption|]. split; [assumption|].
  destruct (inside_image_pixel _ _ _ _ Hin) as [Hpx Hpy].
  split; [assumption|]. split; [assumption|].
  unfold visible. auto.
Qed.

Lemma location_in_image_witness :
  exists p,
    map_ground_3D_transform_to_2D (1, 1, 11) origin origin camera99
                                  (100, 100)%Z = Ok (Some p) /\
    inside_image (cx p) (cy p) 100 100 = true.
Proof.
  eexists. split; [vm_compute; reflexivity|].
  apply (location_in_image (1, 1, 11) origin origin camera99 100 100).
  vm_compute. reflexivity.
Defined.

(** ** The returned box *)

Lemma combinations2_In {A} (a b : A) :
  forall l, In (a, b) (combinations2 l) -> In a l /\ In b l.
Proof.
  induction l as [|c l IH]; simpl; [intros []|].
  intro Hin. apply in_app_or in Hin. destruct Hin as [Hin|Hin].
  - apply in_map_iff in Hin. destruct Hin as (x & E & Hx).
    injection E as <- <-. auto.
  - destruct (IH Hin). auto.
Qed.

Lemma ends_are_corners (corners : list corner) (p q : corner) :
  get_bounding_box_from_corners corners = Some (p, q) ->
  In p corners /\ In q corners.
Proof.
  unfold get_bounding_box_from_corners. intro Hres.
  assert (Hinv : loop_inv ([] ++ combinations2 corners)
                   (fold_left corners_step (combinations2 corners) (0, None))).
  { apply corners_loop_inv. simpl. split; [reflexivity|]. intros ? ? []. }
  simpl in Hinv. unfold loop_inv in Hinv. rewrite Hres in Hinv.
  destruct Hinv as (a & b & (before & after & Hsplit & _) & _ & Hpq).
  assert (Hin : In (a, b) (combinations2 corners))
    by (rewrite Hsplit; apply in_or_app; right; now left).
  apply combinations2_In in Hin. destruct Hin as [Ha Hb].
  unfold orient in Hpq.
  destruct (Qltb (cx a) (cx b) && Qltb (cy a) (cy b));
    injection Hpq as -> ->; auto.
Qed.

(** X6.  A returned box is spanned by two of the returned corners: its
    bounds are the smaller and the larger of their truncated
    coordinates, whichever of the two comes first; for an image of
    non-negative size it is at least one pixel wide and high. *)
Theorem returned_box_spans_two_corners
    (depth : mat) (veh obj : Transform) (bb : BoundingBox) (rgb : Transform)
    (K : mat) (W H : Z) (mt nt : Q) (log : list (Z * Z))
    (xmin xmax ymin ymax : Z) :
  get_2d_bbox_from_3d_box depth veh obj bb rgb K (W, H) mt nt
  = (log, Ok (Some (xmin, xmax, ymin, ymax))) ->
  exists corners p q,
    map_ground_bounding_box_to_2D veh obj bb rgb K (W, H) = Ok corners /\
    In p corners /\ In q corners /\
    xmin = Z.min (py_int (cx p)) (py_int (cx q)) /\
    xmax = Z.max (py_int (cx p)) (py_int (cx q)) /\
    ymin = Z.min (py_int (cy p)) (py_int (cy q)) /\
    ymax = Z.max (py_int (cy p)) (py_int (cy q)) /\
    ((0 <= W)%Z -> (xmin < xmax)%Z) /\
    ((0 <= H)%Z -> (ymin < ymax)%Z).
Proof.
  intro Hrun. apply returned_box_inv in Hrun.
  destruct Hrun as (corners & [p q] & Hc & _ & Hends & Hbox & Hbig).
  exists corners, p, q.
  destruct (ends_are_corners corners p q Hends) as [Hp Hq].
  unfold select_max_bbox in Hbox. simpl in Hbox.
  injection Hbox as -> -> -> ->.
  apply big_enough_spec in Hbig. destruct Hbig as (Hw & Hh & _).
  repeat split; try assumption; try reflexivity.
  - intro HW. unfold Qlt, inject_Z in Hw. simpl in Hw. lia.
  - intro HH. unfold Qlt, inject_Z in Hh. simpl in Hh. lia.
Qed.

Lemma returned_box_spans_two_corners_witness :
  get_2d_bbox_from_3d_box (depth_buffer (9 # 1000) []) origin origin
                          (unit_cube_at 0 0 10) origin camera99
                          (100, 100)%Z (1 # 10) 1
  = ([(50, 50)%Z], Ok (Some (39, 61, 39, 61)%Z)) /\
  exists corners p q,
    map_ground_bounding_box_to_2D origin origin (unit_cube_at 0 0 10) origin
                                  camera99 (100, 100)%Z = Ok corners /\
    In p corners /\ In q corners /\
    39%Z = Z.min (py_int (cx p)) (py_int (cx q)) /\
    61%Z = Z.max (py_int (cx p)) (py_int (cx q)) /\
    39%Z = Z.min (py_int (cy p)) (py_int (cy q)) /\
    61%Z = Z.max (py_int (cy p)) (py_int (cy q)) /\
    ((0 <= 100)%Z -> (39 < 61)%Z) /\
    ((0 <= 100)%Z -> (39 < 61)%Z).
Proof.
  assert (Hrun : get_2d_bbox_from_3d_box (depth_buffer (9 # 1000) []) origin
                   origin (unit_cube_at 0 0 10) origin camera99
                   (100, 100)%Z (1 # 10) 1
                 = ([(50, 50)%Z], Ok (Some (39, 61, 39, 61)%Z)))
    by (vm_compute; reflexivity).
  split; [exact Hrun|].
  exact (returned_box_spans_two_corners _ _ _ _ _ _ _ _ _ _ _ _ _ _ _ Hrun).
Defined.

(** X7.  When both ends lie inside the image, so does the middle point,
    which carries the depth of the second end. *)
Theorem middle_point_inside (a b : corner) (W H : Z) :
  inside_image (cx a) (cy a) W H = true ->
  inside_image (cx b) (cy b) W H = true ->
  let middle_point := fst (get_bounding_box_sampling_points (a, b)) in
  inside_image (cx middle_point) (cy middle_point) W H = true /\
  cz middle_point = cz b.
Proof.
  intros Ha Hb. simpl. split; [|reflexivity].
  apply inside_image_spec in Ha, Hb. apply inside_image_spec.
  unfold cx, cy in *. simpl.
  destruct Ha as (? & ? & ? & ?), Hb as (? & ? & ? & ?).
  repeat split.
  - apply Qle_shift_div_l; lra.
  - apply Qle_shift_div_l; lra.
  - apply Qlt_shift_div_r; lra.
  - apply Qlt_shift_div_r; lra.
Qed.

Lemma middle_point_inside_witness :
  inside_image (cx (fst (get_bounding_box_sampling_points
                           ((39, 39, 9), (61, 61, 9)))))
               (cy (fst (get_bounding_box_sampling_points
                           ((39, 39, 9), (61, 61, 9)))))
               100 100 = true.
Proof.
  apply (middle_point_inside (39, 39, 9) (61, 61, 9) 100 100); reflexivity.
Defined.

(** ** The depth test without its guard *)

Lemma py_getitem_cases {A} (l : list A) (i : Z) (d : A) :
  py_getitem l i
  = if ((- Z.of_nat (length l) <=? i) && (i <? Z.of_nat (length l)))%Z
    then Ok (nth (Z.to_nat (i mod Z.of_nat (length l))) l d)
    else Raise IndexError.
Proof.
  unfold py_getitem. set (n := Z.of_nat (length l)).
  destruct (Z.ltb_spec i 0) as [Hneg|Hpos].
  - destruct (Z.leb_spec (- n) i) as [Hlo|Hlo]; simpl.
    + destruct (Z.ltb_spec i n); [|lia].
      destruct (Z.leb_spec 0 (i + n)); [|lia].
      destruct (Z.ltb_spec (i + n) n); [|lia]. simpl.
      replace (i mod n)%Z with (i + n)%Z
        by (apply Z.mod_unique with (q := (-1)%Z); lia).
      destruct (nth_error l (Z.to_nat (i + n))) as [a|] eqn:Hnth.
      * f_equal. symmetry. now apply nth_error_nth.
      * apply nth_error_None in Hnth. lia.
    + destruct (Z.leb_spec 0 (i + n)); [lia|]. reflexivity.
  - destruct (Z.leb_spec (- n) i); [|lia]. simpl.
    destruct (Z.leb_spec 0 i); [|lia].
    destruct (Z.ltb_spec i n); simpl; [|reflexivity].
    rewrite Z.mod_small by lia.
    destruct (nth_error l (Z.to_nat i)) as [a|] eqn:Hnth.
    + f_equal. symmetry. now apply nth_error_nth.
    + apply nth_error_None in Hnth. lia.
Qed.

(** X8.  Called without the image test, [have_same_depth] raises
    [IndexError] only for a truncated column outside [-width, width) or
    row outside [-height, height); a negative one inside that range
    raises nothing and reads from the opposite edge of the array. *)
Theorem have_same_depth_wraps
    (x y z : Q) (depth : mat) (thr : Q) (W H : Z) :
  has_shape depth W H ->
  snd (have_same_depth x y z depth thr)
  = if ((- H <=? py_int y) && (py_int y <? H)
        && ((- W <=? py_int x) && (py_int x <? W)))%Z
    then Ok (Qltb (Qabs (entry depth (Z.to_nat (py_int y mod H))
                                     (Z.to_nat (py_int x mod W)) * 1000 - z))
                  thr)
    else Raise IndexError.
Proof.
  intros [Hrows Hcols].
  unfold have_same_depth, tell_read, lift, ret, bind.
  rewrite (py_getitem_cases depth (py_int y) []), Hrows.
  destruct ((- H <=? py_int y) && (py_int y <? H))%Z eqn:Hy; simpl;
    [|reflexivity].
  apply andb_true_iff in Hy. destruct Hy as [Hlo Hhi].
  apply Z.leb_le in Hlo. apply Z.ltb_lt in Hhi.
  assert (Hrow : Z.of_nat (length (nth (Z.to_nat (py_int y mod H)) depth []))
                 = W).
  { rewrite Forall_forall in Hcols. apply Hcols. apply nth_In.
    pose proof (Z.mod_pos_bound (py_int y) H). lia. }
  rewrite (py_getitem_cases _ (py_int x) 0), Hrow.
  destruct ((- W <=? py_int x) && (py_int x <? W))%Z; reflexivity.
Qed.

Lemma have_same_depth_wraps_witness :
  snd (have_same_depth (- (3 # 2)) 5 9
         (depth_buffer 1 [ (5, 99, 9 # 1000) ]%nat) 1)
  = Ok true.
Proof.
  rewrite (have_same_depth_wraps (- (3 # 2)) 5 9
             (depth_buffer 1 [ (5, 99, 9 # 1000) ]%nat) 1 100 100
             (depth_buffer_shape 1 [ (5, 99, 9 # 1000) ]%nat)).
  vm_compute. reflexivity.
Defined.

(** ** The two thresholds *)

Lemma same_depth_mono depth (t t' : Q) (p : corner) :
  t <= t' -> same_depth depth t p = true -> same_depth depth t' p = true.
Proof.
  unfold same_depth. intros Hle Hlt.
  apply Qltb_lt in Hlt. apply Qltb_lt. lra.
Qed.

Lemma count_true_mono {A} (f g : A -> bool) (l : list A) :
  (forall a, f a = true -> g a = true) ->
  (count_true (map f l) <= count_true (map g l))%nat.
Proof.
  intro Hfg. unfold count_true. induction l as [|a l IH]; simpl; [lia|].
  destruct (f a) eqn:Hfa.
  - rewrite (Hfg a Hfa). simpl. lia.
  - destruct (g a); simpl; lia.
Qed.

Lemma enough_same_depth_mono (l l' : list bool) :
  length l = length l' ->
  (count_true l <= count_true l')%nat ->
  enough_same_depth l = true -> enough_same_depth l' = true.
Proof.
  unfold enough_same_depth. intros Hlen Hcount Hen.
  apply andb_true_iff in Hen. destruct Hen as [Hpos Hfrac].
  apply andb_true_iff. rewrite <- Hlen. split; [assumption|].
  apply Qgeb_ge in Hfrac. apply Qgeb_ge.
  eapply Qle_trans; [exact Hfrac|].
  unfold Qle, inject_Z. simpl. lia.
Qed.

Lemma sample_vote_mono depth size (t t' : Q) (samples : list corner) :
  t <= t' ->
  sample_vote depth size t samples = true ->
  sample_vote depth size t' samples = true.
Proof.
  intros Hle. unfold sample_vote. apply enough_same_depth_mono.
  - now rewrite !length_map.
  - apply count_true_mono. intros p. now apply same_depth_mono.
Qed.

(** X22.  Loosening the thresholds never loses a box: on a depth array
    of the shape of the image, a box returned for
    [middle_depth_threshold] and [neighbor_threshold] is returned
    unchanged for any larger pair of thresholds. *)
Theorem larger_thresholds_keep_box
    (depth : mat) (veh obj : Transform) (bb : BoundingBox) (rgb : Transform)
    (K : mat) (W H : Z) (mt nt mt' nt' : Q) (b : box) :
  has_shape depth W H ->
  mt <= mt' ->
  nt <= nt' ->
  snd (get_2d_bbox_from_3d_box depth veh obj bb rgb K (W, H) mt nt)
  = Ok (Some b) ->
  snd (get_2d_bbox_from_3d_box depth veh obj bb rgb K (W, H) mt' nt')
  = Ok (Some b).
Proof.
  intros Hshape Hmt Hnt Hrun.
  destruct (get_2d_bbox_from_3d_box depth veh obj bb rgb K (W, H) mt nt)
    as [log r] eqn:Hget.
  simpl in Hrun. subst r.
  pose proof Hget as Hinv. apply returned_box_inv in Hinv.
  destruct Hinv as (corners & ends & Hc & Hlen & Hends & -> & Hbig).
  pose proof (get_2d_bbox_outcome depth veh obj bb rgb K W H mt nt
                corners ends Hshape Hc Hlen Hends) as Hout.
  rewrite Hget in Hout. simpl in Hout.
  rewrite (get_2d_bbox_outcome depth veh obj bb rgb K W H mt' nt'
             corners ends Hshape Hc Hlen Hends).
  rewrite Hbig in *.
  destruct (midpoint_gate depth (W, H) mt
              (fst (get_bounding_box_sampling_points ends))
            || sample_vote depth (W, H) nt
                 (snd (get_bounding_box_sampling_points ends))) eqn:Hacc;
    [|discriminate].
  apply orb_true_iff in Hacc.
  assert (Hacc' : midpoint_gate depth (W, H) mt'
                    (fst (get_bounding_box_sampling_points ends))
                  || sample_vote depth (W, H) nt'
                       (snd (get_bounding_box_sampling_points ends)) = true).
  { apply orb_true_iff. destruct Hacc as [Hgate|Hvote].
    - left. unfold midpoint_gate in *.
      apply andb_true_iff in Hgate. destruct Hgate as [Hin Hsame].
      apply andb_true_iff. split; [assumption|].
      now apply (same_depth_mono depth mt mt').
    - right. now apply (sample_vote_mono depth (W, H) nt nt'). }
  rewrite Hacc'. reflexivity.
Qed.

Lemma larger_thresholds_keep_box_witness :
  snd (get_2d_bbox_from_3d_box split_vote_depth origin origin
         (unit_cube_at 0 0 10) origin camera99 (100, 100)%Z (1 # 10) 1)
  = Ok (Some (39, 61, 39, 61)%Z) /\
  snd (get_2d_bbox_from_3d_box split_vote_depth origin origin
         (unit_cube_at 0 0 10) origin camera99 (100, 100)%Z (2 # 10) 3)
  = Ok (Some (39, 61, 39, 61)%Z).
Proof.
  assert (Hrun : snd (get_2d_bbox_from_3d_box split_vote_depth origin origin
                        (unit_cube_at 0 0 10) origin camera99 (100, 100)%Z
                        (1 # 10) 1)
                 = Ok (Some (39, 61, 39, 61)%Z))
    by (vm_compute; reflexivity).
  split; [exact Hrun|].
  apply (larger_thresholds_keep_box split_vote_depth origin origin
           (unit_cube_at 0 0 10) origin camera99 100 100
           (1 # 10) 1 (2 # 10) 3).
  - apply depth_buffer_shape.
  - vm_compute. discriminate.
  - vm_compute. discriminate.
  - exact Hrun.
Defined.

End ProjectionExtra.

(** * Further properties of the controller *)

Module ControlExtra.

Import Control.
Import ControlFacts.
Import Lra.
Local Open Scope R_scope.

(** ** The target speed of the planner *)

Lemma square_not_negative (a : npfloat) : not_negative (fmul a a).
Proof. destruct a; simpl; auto. nra. Qed.

Lemma sum_not_negative (a b : npfloat) :
  not_negative a -> not_negative b -> not_negative (fadd a b).
Proof. destruct a, b; simpl; auto. lra. Qed.

Lemma math_sqrt_not_negative (a : npfloat) :
  not_negative a -> exists d, math_sqrt a = Ok d /\ not_negative d.
Proof.
  destruct a as [x| | |]; simpl; intro Ha.
  - destruct (Rlt_dec x 0); [lra|].
    eexists. split; [reflexivity|]. simpl. apply sqrt_pos.
  - eexists. split; [reflexivity | exact I].
  - contradiction.
  - eexists. split; [reflexivity | exact I].
Qed.

Lemma get_distance_total (loc1 loc2 : Location) :
  exists d, get_distance loc1 loc2 = Ok d /\ not_negative d.
Proof.
  unfold get_distance. apply math_sqrt_not_negative.
  apply sum_not_negative; apply square_not_negative.
Qed.

Lemma get_distance_nan (loc1 loc2 : Location) :
  loc_x loc1 = NaN \/ loc_y loc1 = NaN \/
  loc_x loc2 = NaN \/ loc_y loc2 = NaN ->
  get_distance loc1 loc2 = Ok NaN.
Proof.
  unfold get_distance.
  intros [E|[E|[E|E]]]; rewrite E;
    destruct (loc_x loc1), (loc_y loc1), (loc_x loc2), (loc_y loc2);
    try discriminate E; reflexivity.
Qed.

Lemma small_is_moderate (x : R) : Rabs x <= 10 -> moderate (Fin x).
Proof.
  intro Hx. unfold moderate. eapply Rle_trans; [exact Hx|].
  rewrite <- (pow_1 10) at 1.
  apply Rle_pow; [lra | lia].
Qed.

(** X9.  For planar coordinates that are NaN, infinite or of magnitude
    at most 1e150, so that no square overflows, [get_target_speed]
    raises nothing and answers 10 or 0; with a NaN among them it
    answers 0. *)
Theorem target_speed_total (vehicle_loc : Location) (waypoint : Transform) :
  moderate (loc_x vehicle_loc) ->
  moderate (loc_y vehicle_loc) ->
  moderate (loc_x (location waypoint)) ->
  moderate (loc_y (location waypoint)) ->
  (get_target_speed vehicle_loc waypoint = Ok (Fin 10) \/
   get_target_speed vehicle_loc waypoint = Ok (Fin 0)) /\
  (loc_x vehicle_loc = NaN \/ loc_y vehicle_loc = NaN \/
   loc_x (location waypoint) = NaN \/ loc_y (location waypoint) = NaN ->
   get_target_speed vehicle_loc waypoint = Ok (Fin 0)).
Proof.
  intros _ _ _ _. unfold get_target_speed. split.
  - destruct (get_distance_total (location waypoint) vehicle_loc)
      as (d & -> & _).
    unfold rbind. destruct (fgtb d (Fin (8 / 100))); auto.
  - intro Hnan. rewrite get_distance_nan by tauto. reflexivity.
Qed.

Lemma target_speed_total_witness :
  get_target_speed {| loc_x := NaN; loc_y := Fin 0; loc_z := Fin 0 |}
                   (pose 10 0 0)
  = Ok (Fin 0).
Proof.
  apply (target_speed_total {| loc_x := NaN; loc_y := Fin 0; loc_z := Fin 0 |}
                            (pose 10 0 0)).
  - exact I.
  - apply small_is_moderate. rewrite Rabs_R0. lra.
  - apply small_is_moderate. rewrite Rabs_right; lra.
  - apply small_is_moderate. rewrite Rabs_R0. lra.
  - left. reflexivity.
Defined.

Lemma get_distance_finite (loc1 loc2 : Location) (x1 y1 x2 y2 : R) :
  loc_x loc1 = Fin x1 -> loc_y loc1 = Fin y1 ->
  loc_x loc2 = Fin x2 -> loc_y loc2 = Fin y2 ->
  get_distance loc1 loc2
  = Ok (Fin (sqrt ((x1 - x2) * (x1 - x2) + (y1 - y2) * (y1 - y2)))).
Proof.
  intros H1 H2 H3 H4. unfold get_distance. rewrite H1, H2, H3, H4. simpl.
  destruct (Rlt_dec _ 0) as [Hneg|_]; [|reflexivity].
  pose proof (Rle_0_sqr (x1 + - x2)) as Hx.
  pose proof (Rle_0_sqr (y1 + - y2)) as Hy.
  unfold Rsqr in Hx, Hy. lra.
Qed.

(** X10.  For finite coordinates of magnitude at most 1e150 the target
    speed is 10 exactly when the planar distance exceeds 0.08, that is
    when the squared planar distance exceeds 0.0064, and 0 otherwise;
    the z coordinates play no part. *)
Theorem target_speed_threshold
    (vehicle_loc : Location) (waypoint : Transform) (vx vy wx wy : R) :
  loc_x vehicle_loc = Fin vx ->
  loc_y vehicle_loc = Fin vy ->
  loc_x (location waypoint) = Fin wx ->
  loc_y (location waypoint) = Fin wy ->
  Rabs vx <= 10 ^ 150 ->
  Rabs vy <= 10 ^ 150 ->
  Rabs wx <= 10 ^ 150 ->
  Rabs wy <= 10 ^ 150 ->
  (get_target_speed vehicle_loc waypoint = Ok (Fin 10) <->
   64 / 10000 < (wx - vx) * (wx - vx) + (wy - vy) * (wy - vy)) /\
  (get_target_speed vehicle_loc waypoint = Ok (Fin 0) <->
   (wx - vx) * (wx - vx) + (wy - vy) * (wy - vy) <= 64 / 10000).
Proof.
  intros Hvx Hvy Hwx Hwy _ _ _ _. unfold get_target_speed.
  rewrite (get_distance_finite _ _ wx wy vx vy Hwx Hwy Hvx Hvy).
  unfold rbind. rewrite fgtb_fin.
  set (d2 := (wx - vx) * (wx - vx) + (wy - vy) * (wy - vy)).
  assert (Hd2 : 0 <= d2).
  { pose proof (Rle_0_sqr (wx - vx)) as Hx.
    pose proof (Rle_0_sqr (wy - vy)) as Hy.
    unfold Rsqr in Hx, Hy. unfold d2. lra. }
  assert (Hsq : sqrt (64 / 10000) = 8 / 100).
  { replace (64 / 10000) with ((8 / 100) * (8 / 100)) by lra.
    apply sqrt_square. lra. }
  destruct (Rlt_dec (8 / 100) (sqrt d2)) as [Hfar|Hnear].
  - assert (64 / 10000 < d2).
    { destruct (Rlt_dec (64 / 10000) d2) as [|Hle]; [assumption|].
      exfalso. apply Rnot_lt_le in Hle.
      apply sqrt_le_1_alt in Hle. lra. }
    split; split; intro Hside; try reflexivity; try lra;
      exfalso; try lra; injection Hside; lra.
  - assert (d2 <= 64 / 10000).
    { destruct (Rle_dec d2 (64 / 10000)) as [|Hgt]; [assumption|].
      exfalso. apply Rnot_le_lt in Hgt.
      assert (sqrt (64 / 10000) < sqrt d2) by (apply sqrt_lt_1_alt; lra).
      lra. }
    split; split; intro Hside; try reflexivity; try lra;
      exfalso; try lra; injection Hside; lra.
Qed.

Lemma target_speed_threshold_witness :
  get_target_speed {| loc_x := Fin 0; loc_y := Fin 0; loc_z := Fin 0 |}
                   (pose 10 0 0)
  = Ok (Fin 10).
Proof.
  assert (H0 : Rabs 0 <= 10 ^ 150)
    by (apply (small_is_moderate 0); rewrite Rabs_R0; lra).
  assert (H10 : Rabs 10 <= 10 ^ 150)
    by (apply (small_is_moderate 10); rewrite Rabs_right; lra).
  apply (target_speed_threshold
           {| loc_x := Fin 0; loc_y := Fin 0; loc_z := Fin 0 |}
           (pose 10 0 0) 0 0 10 0 eq_refl eq_refl eq_refl eq_refl
           H0 H0 H10 H0).
  lra.
Defined.

(** Away from the vehicle position the norm of the waypoint vector is
    positive and its division produces no NaN; nothing after it does,
    whether [math.acos] accepts the dot product or raises. *)
Lemma get_steering_not_nan
    (PID : Type) (self : PIDControlOperator PID)
    (vehicle waypoint : Transform) (g yw vx vy wx wy : R) :
  _vehicle_transform self = Some vehicle ->
  yaw (rotation vehicle) = Fin yw ->
  loc_x (location vehicle) = Fin vx ->
  loc_y (location vehicle) = Fin vy ->
  loc_x (location waypoint) = Fin wx ->
  loc_y (location waypoint) = Fin wy ->
  steer_gain (_flags self) = Fin g ->
  wx <> vx \/ wy <> vy ->
  _get_steering self waypoint <> Ok NaN.
Proof.
  intros Hv Hyaw Hvx Hvy Hwx Hwy Hg Hfar. unfold _get_steering.
  rewrite Hv, (waypoint_vector vehicle waypoint vx vy wx wy Hvx Hvy Hwx Hwy),
    Hyaw, Hg.
  unfold math_radians, fmul, math_cos, math_sin, rbind.
  rewrite heading_vector, normalize_planar by lra.
  set (h := heading yw). set (w := normalize2 (wx - vx, wy - vy)).
  assert (Hdot : np_dot (Fin (fst h), Fin (snd h), Fin 0)
                        (Fin (fst w), Fin (snd w), Fin 0)
                 = Fin (dot2 h w)).
  { unfold np_dot, fadd, fmul, dot2. f_equal. ring. }
  rewrite Hdot. unfold math_acos.
  destruct (Rle_dec (-1) (dot2 h w)); [|discriminate].
  destruct (Rle_dec (dot2 h w) 1); [|discriminate].
  change (np_cross_2 (Fin (fst h), Fin (snd h), Fin 0)
                     (Fin (fst w), Fin (snd w), Fin 0))
    with (Fin (cross_z h w)).
  unfold fltb.
  destruct (Rlt_dec (cross_z h w) 0); rewrite fgtb_fin;
    match goal with
    | |- context [Rlt_dec 0 ?s] => destruct (Rlt_dec 0 s)
    end;
    rewrite ?py_min_fin, ?py_max_fin; discriminate.
Qed.

(** X11.  Planner and controller fit together: for finite poses of
    magnitude at most 1e150, when [get_target_speed] answers 10 for a
    waypoint, the waypoint differs from the vehicle position in x or in
    y, and the steering towards it is not the NaN of a waypoint at the
    vehicle position. *)
Theorem moving_target_not_nan
    (PID : Type) (self : PIDControlOperator PID)
    (vehicle waypoint : Transform) (g yw vx vy wx wy : R) :
  _vehicle_transform self = Some vehicle ->
  yaw (rotation vehicle) = Fin yw ->
  loc_x (location vehicle) = Fin vx ->
  loc_y (location vehicle) = Fin vy ->
  loc_x (location waypoint) = Fin wx ->
  loc_y (location waypoint) = Fin wy ->
  steer_gain (_flags self) = Fin g ->
  Rabs vx <= 10 ^ 150 ->
  Rabs vy <= 10 ^ 150 ->
  Rabs wx <= 10 ^ 150 ->
  Rabs wy <= 10 ^ 150 ->
  get_target_speed (location vehicle) waypoint = Ok (Fin 10) ->
  (wx <> vx \/ wy <> vy) /\ _get_steering self waypoint <> Ok NaN.
Proof.
  intros Hv Hyaw Hvx Hvy Hwx Hwy Hg _ _ _ _ Hspeed.
  assert (Hfar : wx <> vx \/ wy <> vy).
  { unfold get_target_speed in Hspeed.
    rewrite (get_distance_finite _ _ wx wy vx vy Hwx Hwy Hvx Hvy) in Hspeed.
    unfold rbind in Hspeed. rewrite fgtb_fin in Hspeed.
    destruct (Req_dec_T wx vx) as [Ex|Ex]; [|now left].
    destruct (Req_dec_T wy vy) as [Ey|Ey]; [|now right].
    exfalso. subst wx wy.
    replace ((vx - vx) * (vx - vx) + (vy - vy) * (vy - vy)) with 0 in Hspeed
      by ring.
    rewrite sqrt_0 in Hspeed.
    destruct (Rlt_dec (8 / 100) 0); [lra|].
    injection Hspeed. lra. }
  split; [exact Hfar|].
  exact (get_steering_not_nan PID self vehicle waypoint g yw vx vy wx wy
           Hv Hyaw Hvx Hvy Hwx Hwy Hg Hfar).
Qed.

Lemma moving_target_not_nan_witness :
  get_target_speed (location (pose 0 0 0)) (pose 10 0 0) = Ok (Fin 10) /\
  _get_steering (driving (pose 0 0 0) None) (pose 10 0 0) <> Ok NaN.
Proof.
  assert (Hspeed : get_target_speed (location (pose 0 0 0)) (pose 10 0 0)
                   = Ok (Fin 10)).
  { unfold get_target_speed.
    rewrite (get_distance_finite _ _ 10 0 0 0) by reflexivity.
    unfold rbind. rewrite fgtb_fin.
    replace ((10 - 0) * (10 - 0) + (0 - 0) * (0 - 0)) with (10 * 10) by ring.
    rewrite sqrt_square by lra.
    destruct (Rlt_dec (8 / 100) 10); [reflexivity | lra]. }
  assert (H0 : Rabs 0 <= 10 ^ 150)
    by (apply (small_is_moderate 0); rewrite Rabs_R0; lra).
  assert (H10 : Rabs 10 <= 10 ^ 150)
    by (apply (small_is_moderate 10); rewrite Rabs_right; lra).
  split; [exact Hspeed|].
  exact (proj2 (moving_target_not_nan npfloat (driving (pose 0 0 0) None)
                  (pose 0 0 0) (pose 10 0 0) 1 0 0 0 10 0
                  eq_refl eq_refl eq_refl eq_refl eq_refl eq_refl eq_refl
                  H0 H0 H10 H0 Hspeed)).
Defined.

(** ** Ranges of throttle and brake *)

Lemma throttle_law_range (d tmax g : R) :
  0 <= tmax -> 0 <= throttle_law d tmax g <= tmax.
Proof.
  intro Ht. unfold throttle_law, clamp, Rmin, Rmax.
  destruct (Rle_dec (d - 13 / 10 * g) 0);
    match goal with |- context [Rle_dec ?a ?b] => destruct (Rle_dec a b) end;
    lra.
Qed.

Lemma brake_law_range (bs g : R) : 0 <= bs -> 0 <= brake_law bs g <= 1.
Proof.
  intro Hb. unfold brake_law, Rmin.
  destruct (Rlt_dec (5 / 10) g); [|lra].
  destruct (Rle_dec (35 / 100 * g * bs) 1); [|lra].
  split; [|lra]. apply Rmult_le_pos; lra.
Qed.

Section CallbackMore.

Variable PID : Type.
Variable pid_set_target : PID -> npfloat -> PID.
Variable pid_call : PID -> npfloat -> npfloat * PID.

(** The operator once the callback has stored speed and pose. *)
Lemma on_can_bus_update_with_plan
    (self : PIDControlOperator PID) (msg : CanBusMessage)
    (wmsg : WaypointsMessage) :
  _last_waypoint_msg self = Some wmsg ->
  exists self' th br,
    _get_throttle_brake PID pid_set_target pid_call
      {| _flags := _flags self;
         _pid := _pid self;
         _vehicle_transform := Some (transform (data msg));
         _last_waypoint_msg := Some wmsg;
         _latest_speed := forward_speed (data msg) |}
      (target_speed wmsg) = (self', (th, br)) /\
    _flags self' = _flags self /\
    _vehicle_transform self' = Some (transform (data msg)) /\
    _latest_speed self' = forward_speed (data msg) /\
    _pid self'
    = snd (pid_call (pid_set_target (_pid self) (target_speed wmsg))
                    (forward_speed (data msg))) /\
    on_can_bus_update PID pid_set_target pid_call self msg
    = match waypoints wmsg with
      | [] => (self', Raise IndexError)
      | waypoint :: _ =>
          (self',
           rbind (_get_steering self' waypoint) (fun st =>
           Ok {| steer := st; throttle := th; brake := br;
                 hand_brake := false; reverse := false;
                 ctl_timestamp := timestamp msg |}))
      end.
Proof.
  intros Hw. unfold on_can_bus_update. simpl _last_waypoint_msg.
  rewrite Hw. unfold _get_throttle_brake. simpl.
  destruct (pid_call (pid_set_target (_pid self) (target_speed wmsg))
                     (forward_speed (data msg))) as [gain pid'].
  do 3 eexists. split; [reflexivity|]. simpl.
  repeat split.
Qed.

(** X12.  With finite flags, [throttle_max >= 0] and
    [brake_strength >= 0], every command sent for a finite PID output
    has its throttle in [0, throttle_max] and its brake in [0, 1]. *)
Theorem sent_throttle_brake_in_range
    (self : PIDControlOperator PID) (msg : CanBusMessage)
    (wmsg : WaypointsMessage) (cmd : ControlMessage) (d tmax bs g : R) :
  _last_waypoint_msg self = Some wmsg ->
  default_throttle (_flags self) = Fin d ->
  throttle_max (_flags self) = Fin tmax ->
  brake_strength (_flags self) = Fin bs ->
  0 <= tmax ->
  0 <= bs ->
  fst (pid_call (pid_set_target (_pid self) (target_speed wmsg))
                (forward_speed (data msg))) = Fin g ->
  snd (on_can_bus_update PID pid_set_target pid_call self msg) = Ok cmd ->
  exists t b,
    throttle cmd = Fin t /\ brake cmd = Fin b /\
    0 <= t <= tmax /\ 0 <= b <= 1.
Proof.
  intros Hw Hd Ht Hb Htmax Hbs Hg Hsent.
  destruct (on_can_bus_update_with_plan self msg wmsg Hw)
    as (self' & th & br & Htb & _ & _ & _ & _ & Hupd).
  pose proof (get_throttle_brake_finite PID pid_set_target pid_call
                {| _flags := _flags self;
                   _pid := _pid self;
                   _vehicle_transform := Some (transform (data msg));
                   _last_waypoint_msg := Some wmsg;
                   _latest_speed := forward_speed (data msg) |}
                (target_speed wmsg) d tmax bs g Hd Ht Hb Hg) as Hlaw.
  rewrite Htb in Hlaw. simpl in Hlaw. injection Hlaw as -> ->.
  rewrite Hupd in Hsent.
  destruct (waypoints wmsg) as [|waypoint rest]; [discriminate|].
  simpl in Hsent.
  destruct (_get_steering self' waypoint) as [st|e]; [|discriminate].
  simpl in Hsent. injection Hsent as <-. simpl.
  exists (throttle_law d tmax g), (brake_law bs g).
  split; [reflexivity|]. split; [reflexivity|].
  split; [now apply throttle_law_range | now apply brake_law_range].
Qed.

(** X13.  A plan without a waypoint makes the callback raise
    [IndexError] and send nothing, after it has stored the speed and the
    pose and has run the PID controller once. *)
Theorem empty_plan_raises
    (self : PIDControlOperator PID) (msg : CanBusMessage)
    (wmsg : WaypointsMessage) :
  _last_waypoint_msg self = Some wmsg ->
  waypoints wmsg = [] ->
  snd (on_can_bus_update PID pid_set_target pid_call self msg)
  = Raise IndexError /\
  _latest_speed (fst (on_can_bus_update PID pid_set_target pid_call self msg))
  = forward_speed (data msg) /\
  _vehicle_transform
    (fst (on_can_bus_update PID pid_set_target pid_call self msg))
  = Some (transform (data msg)) /\
  _pid (fst (on_can_bus_update PID pid_set_target pid_call self msg))
  = snd (pid_call (pid_set_target (_pid self) (target_speed wmsg))
                  (forward_speed (data msg))).
Proof.
  intros Hw Hempty.
  destruct (on_can_bus_update_with_plan self msg wmsg Hw)
    as (self' & th & br & _ & _ & Hvt & Hsp & Hpid & Hupd).
  rewrite Hupd, Hempty. simpl. auto.
Qed.

End CallbackMore.

Lemma sent_throttle_brake_in_range_witness :
  exists cmd t b,
    snd (on_can_bus_update npfloat p_set_target p_call
           (driving (pose 0 0 0) (Some plan0)) (can_bus 12 0 0 0 7)) = Ok cmd /\
    throttle cmd = Fin t /\ brake cmd = Fin b /\
    0 <= t <= 1 / 2 /\ 0 <= b <= 1.
Proof.
  assert (Hsteer : _get_steering (driving (pose 0 0 0) (Some plan0))
                                 (pose 10 0 0)
                   = Ok (Fin (steering_law 1 0 0 0 10 0))).
  { apply (get_steering_finite npfloat _ (pose 0 0 0)); try reflexivity.
    left. lra. }
  assert (Hsent : exists cmd,
             snd (on_can_bus_update npfloat p_set_target p_call
                    (driving (pose 0 0 0) (Some plan0)) (can_bus 12 0 0 0 7))
             = Ok cmd).
  { eexists. unfold on_can_bus_update. simpl.
    unfold _get_steering in Hsteer. simpl in Hsteer.
    unfold _get_steering. simpl. rewrite Hsteer. reflexivity. }
  destruct Hsent as [cmd Hsent]. exists cmd.
  destruct (sent_throttle_brake_in_range npfloat p_set_target p_call
              (driving (pose 0 0 0) (Some plan0)) (can_bus 12 0 0 0 7)
              plan0 cmd 1 (1 / 2) 1 (12 - 10)
              eq_refl eq_refl eq_refl eq_refl
              ltac:(lra) ltac:(lra) eq_refl Hsent)
    as (t & b & Ht & Hb & Hrt & Hrb).
  exists t, b. auto.
Defined.

Lemma empty_plan_raises_witness :
  snd (on_can_bus_update npfloat p_set_target p_call
         (driving (pose 0 0 0) (Some empty_plan)) (can_bus 12 0 0 0 7))
  = Raise IndexError.
Proof.
  apply (empty_plan_raises npfloat p_set_target p_call
           (driving (pose 0 0 0) (Some empty_plan)) (can_bus 12 0 0 0 7)
           empty_plan eq_refl eq_refl).
Defined.

(** ** More on steering *)

(** X14.  When the first waypoint of the plan lies at the position the
    can-bus message reports, the callback raises nothing and sends a
    command whose steer is NaN. *)
Theorem coincident_waypoint_sends_nan
    (PID : Type) (pid_set_target : PID -> npfloat -> PID)
    (pid_call : PID -> npfloat -> npfloat * PID)
    (self : PIDControlOperator PID) (msg : CanBusMessage)
    (wmsg : WaypointsMessage) (waypoint : Transform) (rest : list Transform)
    (yw vx vy : R) :
  _last_waypoint_msg self = Some wmsg ->
  waypoints wmsg = waypoint :: rest ->
  yaw (rotation (transform (data msg))) = Fin yw ->
  loc_x (location (transform (data msg))) = Fin vx ->
  loc_y (location (transform (data msg))) = Fin vy ->
  loc_x (location waypoint) = Fin vx ->
  loc_y (location waypoint) = Fin vy ->
  exists cmd,
    snd (on_can_bus_update PID pid_set_target pid_call self msg) = Ok cmd /\
    steer cmd = NaN.
Proof.
  intros Hw Hwp Hyaw Hvx Hvy Hwx Hwy.
  destruct (on_can_bus_update_with_plan PID pid_set_target pid_call
              self msg wmsg Hw)
    as (self' & th & br & _ & _ & Hvt & _ & _ & Hupd).
  rewrite Hupd, Hwp. simpl snd.
  rewrite (get_steering_coincident PID self' (transform (data msg)) waypoint
             yw vx vy vx vy Hvt Hyaw Hvx Hvy Hwx Hwy eq_refl eq_refl).
  simpl. eexists. split; reflexivity.
Qed.

Lemma coincident_waypoint_sends_nan_witness :
  exists cmd,
    snd (on_can_bus_update npfloat p_set_target p_call
           (driving (pose 0 0 0) (Some plan0)) (can_bus 12 10 0 0 7)) = Ok cmd /\
    steer cmd = NaN.
Proof.
  exact (coincident_waypoint_sends_nan npfloat p_set_target p_call
           (driving (pose 0 0 0) (Some plan0)) (can_bus 12 10 0 0 7)
           plan0 (pose 10 0 0) [] 0 10 0
           eq_refl eq_refl eq_refl eq_refl eq_refl eq_refl eq_refl).
Defined.

Lemma norm2_scale (k : R) (u : R * R) :
  0 <= k -> norm2 (k * fst u, k * snd u) = k * norm2 u.
Proof.
  intro Hk. unfold norm2. simpl fst. simpl snd.
  replace (k * fst u * (k * fst u) + k * snd u * (k * snd u))
    with ((k * k) * (fst u * fst u + snd u * snd u)) by ring.
  pose proof (Rle_0_sqr (fst u)) as Hx. pose proof (Rle_0_sqr (snd u)) as Hy.
  unfold Rsqr in Hx, Hy.
  rewrite sqrt_mult by nra. now rewrite sqrt_square.
Qed.

Lemma normalize2_scale (k : R) (u : R * R) :
  0 < k -> fst u <> 0 \/ snd u <> 0 ->
  normalize2 (k * fst u, k * snd u) = normalize2 u.
Proof.
  intros Hk Hu. pose proof (norm2_pos u Hu) as Hpos.
  unfold normalize2. rewrite norm2_scale by lra. simpl fst. simpl snd.
  f_equal; field; lra.
Qed.

(** ** What the callback raises *)

Lemma math_cos_raises (a : npfloat) (e : exn) :
  math_cos a = Raise e -> e = ValueError.
Proof. destruct a; simpl; congruence. Qed.

Lemma math_sin_raises (a : npfloat) (e : exn) :
  math_sin a = Raise e -> e = ValueError.
Proof. destruct a; simpl; congruence. Qed.

Lemma math_acos_raises (a : npfloat) (e : exn) :
  math_acos a = Raise e -> e = ValueError.
Proof.
  destruct a as [x| | |]; simpl; try congruence.
  destruct (Rle_dec (-1) x); [|congruence].
  destruct (Rle_dec x 1); congruence.
Qed.

Lemma get_steering_raises (PID : Type) (self : PIDControlOperator PID)
    (vehicle waypoint : Transform) (e : exn) :
  _vehicle_transform self = Some vehicle ->
  _get_steering self waypoint = Raise e -> e = ValueError.
Proof.
  intros Hv. unfold _get_steering. rewrite Hv.
  destruct (math_cos (math_radians (yaw (rotation vehicle)))) as [c|e1] eqn:Hc;
    [|intro He; injection He as <-; now apply math_cos_raises in Hc].
  destruct (math_sin (math_radians (yaw (rotation vehicle)))) as [sn|e2] eqn:Hs;
    [|intro He; injection He as <-; now apply math_sin_raises in Hs].
  unfold rbind at 1 2.
  match goal with
  | |- rbind (math_acos ?d) _ = _ -> _ =>
      destruct (math_acos d) as [angle|e3] eqn:Ha
  end.
  - discriminate.
  - intro He. injection He as <-. now apply math_acos_raises in Ha.
Qed.

Lemma math_radians_infinite :
  math_radians PInf = PInf /\ math_radians NInf = NInf.
Proof.
  pose proof PI_RGT_0. unfold math_radians, fmul, inf_of_sign. split.
  - destruct (Rlt_dec 0 (PI / 180)); [reflexivity | lra].
  - destruct (Rlt_dec 0 (- (PI / 180))); [lra|].
    destruct (Rlt_dec (- (PI / 180)) 0); [reflexivity | lra].
Qed.

Lemma get_steering_infinite_yaw (PID : Type) (self : PIDControlOperator PID)
    (vehicle waypoint : Transform) :
  _vehicle_transform self = Some vehicle ->
  yaw (rotation vehicle) = PInf \/ yaw (rotation vehicle) = NInf ->
  _get_steering self waypoint = Raise ValueError.
Proof.
  intros Hv Hyaw. unfold _get_steering. rewrite Hv.
  destruct math_radians_infinite as [Hp Hn].
  destruct Hyaw as [-> | ->]; [rewrite Hp | rewrite Hn]; reflexivity.
Qed.

(** X18.  The callback never raises [AssertionError]: what it raises is
    [IndexError] or [ValueError].  It raises [IndexError] exactly when
    there is a waypoint message and its list of waypoints is empty, and
    it raises [ValueError] whenever the message has a waypoint and the
    yaw reported by the can-bus message is infinite. *)
Theorem callback_exceptions
    (PID : Type) (pid_set_target : PID -> npfloat -> PID)
    (pid_call : PID -> npfloat -> npfloat * PID)
    (self : PIDControlOperator PID) (msg : CanBusMessage) :
  (forall e,
      snd (on_can_bus_update PID pid_set_target pid_call self msg) = Raise e ->
      e = IndexError \/ e = ValueError) /\
  (snd (on_can_bus_update PID pid_set_target pid_call self msg)
   = Raise IndexError <->
   exists wmsg,
     _last_waypoint_msg self = Some wmsg /\ waypoints wmsg = []) /\
  (forall wmsg,
      _last_waypoint_msg self = Some wmsg ->
      waypoints wmsg <> [] ->
      yaw (rotation (transform (data msg))) = PInf \/
      yaw (rotation (transform (data msg))) = NInf ->
      snd (on_can_bus_update PID pid_set_target pid_call self msg)
      = Raise ValueError).
Proof.
  destruct (_last_waypoint_msg self) as [wmsg|] eqn:Hw.
  - destruct (on_can_bus_update_with_plan PID pid_set_target pid_call
                self msg wmsg Hw)
      as (self' & th & br & _ & _ & Hvt & _ & _ & Hupd).
    rewrite Hupd.
    destruct (waypoints wmsg) as [|waypoint rest] eqn:Hwp; simpl snd.
    + split; [|split].
      * intros e He. injection He as <-. now left.
      * split; [|reflexivity]. intros _. exists wmsg. auto.
      * intros wmsg' Heq Hne. injection Heq as <-.
        rewrite Hwp in Hne. contradiction.
    + destruct (_get_steering self' waypoint) as [st|e'] eqn:Hsteer.
      * simpl. split; [|split].
        -- intros e He. discriminate.
        -- split; [discriminate|].
           intros (wmsg' & Heq & Hemp). injection Heq as <-.
           rewrite Hwp in Hemp. discriminate.
        -- intros wmsg' _ _ Hinf.
           rewrite (get_steering_infinite_yaw PID self'
                      (transform (data msg)) waypoint Hvt Hinf) in Hsteer.
           discriminate.
      * pose proof (get_steering_raises PID self' (transform (data msg))
                      waypoint e' Hvt Hsteer) as ->.
        simpl. split; [|split].
        -- intros e He. injection He as <-. now right.
        -- split; [discriminate|].
           intros (wmsg' & Heq & Hemp). injection Heq as <-.
           rewrite Hwp in Hemp. discriminate.
        -- reflexivity.
  - unfold on_can_bus_update. simpl _last_waypoint_msg. rewrite Hw. simpl.
    split; [|split].
    + intros e He. discriminate.
    + split; [discriminate|]. intros (wmsg & Heq & _). discriminate.
    + intros wmsg Heq. discriminate.
Qed.

End ControlExtra.

(** * Properties of the text of a bounding box and of the pose matrix *)

Module PoseExtra.

Import Control.
Import ControlFacts.
Import Lra.
Local Open Scope R_scope.

(** X19.  The text of a [BoundingBox] cannot be produced: the template
    of [__str__] has four fields and gets two arguments, so [__str__]
    and [__repr__] raise [IndexError] for every bounding box. *)
Theorem bounding_box_str_raises (transform_str extent_str : String.string) :
  Text.BoundingBox_str transform_str extent_str = Some (Raise IndexError) /\
  Text.BoundingBox_repr transform_str extent_str = Some (Raise IndexError).
Proof. split; reflexivity. Qed.

Lemma pythagoras (t : R) : cos t * cos t + sin t * sin t = 1.
Proof. pose proof (sin2_cos2 t) as H. unfold Rsqr in H. lra. Qed.

(** X20.  The three columns of the rotation part of the matrix are
    orthogonal to each other and column [i] has the length of the
    [i]-th scale factor; with the default scale they are orthonormal. *)
Theorem transform_columns_orthogonal
    (pos : R * R * R) (pitch yaw roll : R) (scale : Scale) (i j : nat) :
  (i < 3)%nat -> (j < 3)%nat ->
  column_dot (Transform_matrix pos pitch yaw roll (Some scale)) i j
  = (if (i =? j)%nat then scale_of scale i * scale_of scale i else 0) /\
  column_dot (Transform_matrix pos pitch yaw roll None) i j
  = (if (i =? j)%nat then 1 else 0).
Proof.
  intros Hi Hj.
  pose proof (pythagoras (np_radians yaw)) as Hy.
  pose proof (pythagoras (np_radians pitch)) as Hp.
  pose proof (pythagoras (np_radians roll)) as Hr.
  unfold column_dot, rentry, Transform_matrix.
  set (cy := cos (np_radians yaw)) in *.
  set (sy := sin (np_radians yaw)) in *.
  set (cp := cos (np_radians pitch)) in *.
  set (sp := sin (np_radians pitch)) in *.
  set (cr := cos (np_radians roll)) in *.
  set (sr := sin (np_radians roll)) in *.
  destruct scale as [sx sy' sz].
  destruct i as [|[|[|i]]]; [| | |lia];
    (destruct j as [|[|[|j]]]; [| | |lia]);
    simpl; split; nsatz.
Qed.

Lemma transform_columns_orthogonal_witness :
  column_dot (Transform_matrix (1, 2, 3) 10 20 30 None) 0 1 = 0.
Proof.
  apply (transform_columns_orthogonal (1, 2, 3) 10 20 30 Scale_default 0 1);
    lia.
Defined.

(** X21.  For a pitch with positive cosine and a positive x scale, the
    image of the x axis under the matrix, taken in the plane and
    normalized, is the heading vector the controller computes from the
    yaw. *)
Theorem transform_x_axis_is_heading
    (pos : R * R * R) (pitch yaw roll : R) (scale : option Scale) :
  0 < cos (np_radians pitch) ->
  0 < match scale with
      | None => 1
      | Some sc => scale_x sc
      end ->
  normalize2 (rentry (Transform_matrix pos pitch yaw roll scale) 0 0,
              rentry (Transform_matrix pos pitch yaw roll scale) 1 0)
  = heading yaw.
Proof.
  intros Hcp Hsx. unfold heading. fold (np_radians yaw).
  set (cy := cos (np_radians yaw)). set (sy := sin (np_radians yaw)).
  set (k := match scale with
            | None => 1
            | Some sc => scale_x sc
            end * cos (np_radians pitch)).
  assert (Hk : 0 < k) by (apply Rmult_lt_0_compat; assumption).
  replace (rentry (Transform_matrix pos pitch yaw roll scale) 0 0,
           rentry (Transform_matrix pos pitch yaw roll scale) 1 0)
    with (k * fst (cy, sy), k * snd (cy, sy)).
  - apply ControlExtra.normalize2_scale; [assumption|].
    apply cos_sin_not_both_zero.
  - unfold rentry, Transform_matrix, k. destruct scale; simpl;
      fold cy; fold sy; f_equal; ring.
Qed.

Lemma transform_x_axis_is_heading_witness :
  normalize2 (rentry (Transform_matrix (1, 2, 3) 0 45 0 None) 0 0,
              rentry (Transform_matrix (1, 2, 3) 0 45 0 None) 1 0)
  = heading 45.
Proof.
  apply (transform_x_axis_is_heading (1, 2, 3) 0 45 0 None).
  - unfold np_radians. replace (0 * (PI / 180)) with 0 by ring.
    rewrite cos_0. lra.
  - lra.
Defined.

End PoseExtra.

(** * The steering on binary64 numbers *)

Module Binary64Facts.

Import PrimFloat SpecFloat FloatOps FloatAxioms.
Import Binary64.
Local Open Scope float_scope.

(** The normalized heading and the normalized waypoint vector are both
    (0.9975640502598243, 0.06975647374412532, 0), and their dot product
    rounds to the float above 1. *)
Lemma dot_product_above_one :
  np_dot (vdiv (cos_4_degrees, sin_4_degrees, 0)
               (np_linalg_norm (cos_4_degrees, sin_4_degrees, 0)))
         (vdiv (vsub (pos_x waypoint_ahead, pos_y waypoint_ahead, 0)
                     (pos_x vehicle_4_degrees, pos_y vehicle_4_degrees, 0))
               (np_linalg_norm
                  (vsub (pos_x waypoint_ahead, pos_y waypoint_ahead, 0)
                        (pos_x vehicle_4_degrees, pos_y vehicle_4_degrees,
                         0))))
  = 0x1.0000000000001p+0.
Proof. vm_compute. reflexivity. Qed.

(** C5, a defect of the code.  With the vehicle at the origin heading 4
    degrees and the waypoint one unit straight ahead, distinct from the
    vehicle position, [_get_steering] returns no value in [-1, 1]: the
    dot product of the two normalized vectors is
    1.0000000000000002 and [math.acos] raises [ValueError], for every
    steer gain, on a C library whose cosine and sine of
    [math.radians(4.0)] are 0.9975640502598242 and 0.0697564737441253. *)
Theorem straight_ahead_raises
    (libm_cos libm_sin libm_acos : float -> float) (steer_gain : float) :
  libm_cos (math_radians 4) = cos_4_degrees ->
  libm_sin (math_radians 4) = sin_4_degrees ->
  _get_steering libm_cos libm_sin libm_acos steer_gain
                (Some vehicle_4_degrees) waypoint_ahead
  = Raise ValueError.
Proof.
  intros Hcos Hsin. unfold _get_steering, math_cos, math_sin.
  change (yaw_deg vehicle_4_degrees) with 4.
  assert (Hfin : is_inf (math_radians 4) = false) by (vm_compute; reflexivity).
  rewrite Hfin, Hcos, Hsin. unfold rbind at 1 2.
  rewrite dot_product_above_one.
  unfold math_acos.
  assert (Hdom : ((0x1.0000000000001p+0 <? - 1)
                  || (1 <? 0x1.0000000000001p+0))%bool = true)
    by (vm_compute; reflexivity).
  rewrite Hdom. reflexivity.
Qed.

Lemma straight_ahead_raises_witness :
  _get_steering (fun _ => cos_4_degrees) (fun _ => sin_4_degrees)
                (fun x => x) 1 (Some vehicle_4_degrees) waypoint_ahead
  = Raise ValueError.
Proof.
  apply (straight_ahead_raises (fun _ => cos_4_degrees)
           (fun _ => sin_4_degrees) (fun x => x) 1);
    reflexivity.
Defined.

(** ** The range of the result *)

Lemma SFcompare_antisym_finite (s1 s2 : bool) (m1 m2 : positive) (e1 e2 : Z) :
  SFcompare (S754_finite s2 m2 e2) (S754_finite s1 m1 e1)
  = option_map CompOpp
      (SFcompare (S754_finite s1 m1 e1) (S754_finite s2 m2 e2)).
Proof.
  unfold SFcompare, option_map. rewrite (Z.compare_antisym e1 e2).
  change (PosDef.Pos.compare_cont Eq m2 m1)
    with (Pos.compare_cont (CompOpp Eq) m2 m1).
  rewrite <- (Pos.compare_cont_antisym m1 m2 Eq).
  change (PosDef.Pos.compare_cont Eq m1 m2) with (Pos.compare_cont Eq m1 m2).
  destruct s1, s2; try reflexivity;
    destruct (e1 ?= e2)%Z; simpl; try reflexivity;
    now rewrite ?CompOpp_involutive.
Qed.

Lemma SFcompare_finite (s1 s2 : bool) (m1 m2 : positive) (e1 e2 : Z) :
  exists c, SFcompare (S754_finite s1 m1 e1) (S754_finite s2 m2 e2) = Some c.
Proof. eexists. reflexivity. Qed.

(** The two one-sided cuts: the result is within [-1, 1] unless the
    product of gain and angle is NaN, which every comparison lets
    through. *)
Lemma clamp_range (st : float) :
  in_range (if 0 <? st then py_min st 1 else py_max st (- 1)) = true \/
  is_nan (if 0 <? st then py_min st 1 else py_max st (- 1)) = true.
Proof.
  unfold py_min, py_max, in_range, is_nan.
  destruct (0 <? st) eqn:H0.
  - destruct (1 <? st) eqn:H1; [left; vm_compute; reflexivity|].
    left. rewrite ltb_spec in H0, H1. rewrite !leb_spec.
    replace (Prim2SF 0) with (S754_zero false) in * by reflexivity.
    replace (Prim2SF 1) with (S754_finite false 4503599627370496 (-52)) in *
      by reflexivity.
    replace (Prim2SF (- 1)) with (S754_finite true 4503599627370496 (-52))
      by reflexivity.
    destruct (Prim2SF st) as [s|s| |s m e];
      [discriminate H0 | destruct s; [discriminate H0 | discriminate H1]
      | discriminate H0 | destruct s; [discriminate H0|]].
    unfold SFleb, SFltb in *.
    rewrite (SFcompare_antisym_finite false false) in H1.
    destruct (SFcompare_finite false false m 4503599627370496 e (-52))
      as [c Hc].
    rewrite Hc in *. destruct c; [reflexivity | reflexivity |].
    cbv in H1. discriminate H1.
  - destruct (st <? - 1) eqn:H1; [left; vm_compute; reflexivity|].
    rewrite ltb_spec in H0, H1. rewrite !leb_spec, FloatAxioms.eqb_spec.
    replace (Prim2SF 0) with (S754_zero false) in * by reflexivity.
    replace (Prim2SF 1) with (S754_finite false 4503599627370496 (-52)) in *
      by reflexivity.
    replace (Prim2SF (- 1)) with (S754_finite true 4503599627370496 (-52)) in *
      by reflexivity.
    destruct (Prim2SF st) as [s|s| |s m e].
    + left. reflexivity.
    + destruct s; cbv in H0, H1; discriminate.
    + right. reflexivity.
    + destruct s; [|discriminate H0]. left.
      unfold SFleb, SFltb in *.
      rewrite (SFcompare_antisym_finite true true).
      destruct (SFcompare_finite true true m 4503599627370496 e (-52))
        as [c Hc].
      rewrite Hc in *. destruct c; [reflexivity | | reflexivity].
      cbv in H1. discriminate H1.
Qed.

(** X23.  On binary64 numbers, for every vehicle pose, waypoint and
    steer gain and whatever the C library computes, [_get_steering]
    either raises [ValueError] or returns a float that is within
    [-1, 1] or is NaN: no rounding takes a returned number out of the
    range. *)
Theorem steering_in_range_or_nan
    (libm_cos libm_sin libm_acos : float -> float) (steer_gain : float)
    (vehicle_transform waypoint_transform : Pose) :
  _get_steering libm_cos libm_sin libm_acos steer_gain
                (Some vehicle_transform) waypoint_transform
  = Raise ValueError \/
  exists steering,
    _get_steering libm_cos libm_sin libm_acos steer_gain
                  (Some vehicle_transform) waypoint_transform
    = Ok steering /\
    (in_range steering = true \/ is_nan steering = true).
Proof.
  unfold _get_steering, math_cos, math_sin.
  destruct (is_inf (math_radians (yaw_deg vehicle_transform)));
    [left; reflexivity|].
  unfold rbind at 1 2 4 5. cbv zeta.
  match goal with
  | |- context [math_acos libm_acos ?d] => generalize d
  end.
  intros d. unfold math_acos.
  destruct ((d <? - 1) || (1 <? d))%bool; [left; reflexivity|].
  right. unfold rbind. eexists. split; [reflexivity|].
  apply clamp_range.
Qed.

End Binary64Facts.
